(** * cinnamon_generic: a shallow embedding of the calibration, callback,
      pipeline-configuration and command layers, and the properties the
      specification states about them.

    The Python sources embedded here are
    - [cinnamon_generic/components/callback.py]      (module [Callback]),
    - [cinnamon_generic/components/calibrator.py]    (module [Calibrator]),
    - [cinnamon_generic/configurations/calibrator.py] (module [CalibratorConfig]),
    - [cinnamon_generic/configurations/pipeline.py]  (module [Pipeline]),
    - [cinnamon_generic/api/commands.py]             (module [Commands]).

    Python dictionaries are [gmap]s, Python exceptions are the [Raise] case
    of [result], and code with side effects is written in a state and
    exception monad [M].  *)

From Stdlib Require Import QArith Qcanon.
From stdpp Require Import numbers strings list sorting gmap fin_maps.

Open Scope string_scope.
Open Scope list_scope.

(** ** Python values, exceptions and effects *)

(** A Python [float]: a number, represented by the rational it denotes
    ([Qc], canonical rationals), or [nan].  The infinities are left out:
    the comparisons order them like numbers. *)
Inductive pyfloat :=
| FNum (q : Qc)
| FNaN.

(** [-x] *)
Definition float_neg (x : pyfloat) : pyfloat :=
  match x with
  | FNum q => FNum (- q)%Qc
  | FNaN => FNaN
  end.

(** [x <= y] and [x < y]: every comparison with [nan] is false. *)
Definition float_le (x y : pyfloat) : Prop :=
  match x, y with
  | FNum a, FNum b => (a ≤ b)%Qc
  | _, _ => False
  end.

Definition float_lt (x y : pyfloat) : Prop :=
  match x, y with
  | FNum a, FNum b => (a < b)%Qc
  | _, _ => False
  end.

Definition is_number (x : pyfloat) : bool :=
  match x with
  | FNum _ => true
  | FNaN => false
  end.

(** The number a float other than [nan] denotes. *)
Definition number_of (x : pyfloat) : Qc :=
  match x with
  | FNum q => q
  | FNaN => 0%Qc
  end.

(** The plain Python values the embedded functions exchange. *)
Inductive value :=
| VNone
| VBool (b : bool)
| VInt (z : Z)
| VFloat (x : pyfloat)
| VStr (s : string).

(** The exceptions raised by the embedded code. *)
Inductive exn :=
| TypeError
| AttributeError
| KeyError
| IndexError
| RuntimeError
| UnsetValidatorException
| MissingSearchSpaceException
| UnsetCalibrationConfigurationException
| NonTunableConfigurationException
| RecursionError
| NotRegisteredException
| OverflowError
| FileNotFoundError
| UserError (msg : string).

Inductive result (A : Type) :=
| Ok (a : A)
| Raise (e : exn).
Arguments Ok {A} a.
Arguments Raise {A} e.

(** [M St A]: a computation over the state [St] that returns an [A] or
    raises.  A raise keeps the state reached so far, as in Python. *)
Definition M (St A : Type) : Type := St -> St * result A.

Definition ret {St A} (a : A) : M St A := fun s => (s, Ok a).

Definition raise {St A} (e : exn) : M St A := fun s => (s, Raise e).

Definition bind {St A B} (c : M St A) (k : A -> M St B) : M St B :=
  fun s => match c s with
           | (s', Ok a) => k a s'
           | (s', Raise e) => (s', Raise e)
           end.

Notation "'do' x <- c ; k" := (bind c (fun x => k))
  (at level 10, x name, c at level 99, k at level 200).

(** [for x in xs: body(x)] *)
Fixpoint for_each {St A} (xs : list A) (body : A -> M St unit) : M St unit :=
  match xs with
  | [] => ret tt
  | x :: xs' => do _ <- body x; for_each xs' body
  end.

(** A state made of the ambient program state [W] (whatever user code may
    read and write) and a trace of the calls the embedded code makes. *)
Definition traced (W E : Type) : Type := (W * list E)%type.

Definition emit {W E} (e : E) : M (traced W E) unit :=
  fun s => ((s.1, s.2 ++ [e]), Ok tt).

(** User code runs on the ambient state and does not touch the trace. *)
Definition lift {W E A} (c : M W A) : M (traced W E) A :=
  fun s => let '(w', r) := c s.1 in ((w', s.2), r).

Lemma bind_ok {St A B} (c : M St A) (k : A -> M St B) s s' a :
  c s = (s', Ok a) -> bind c k s = k a s'.
Proof. intros Hc. unfold bind. by rewrite Hc. Qed.

Lemma bind_raise {St A B} (c : M St A) (k : A -> M St B) s s' e :
  c s = (s', Raise e) -> bind c k s = (s', Raise e).
Proof. intros Hc. unfold bind. by rewrite Hc. Qed.

Lemma string_app_cancel (p a b : string) : p +:+ a = p +:+ b -> a = b.
Proof.
  induction p as [|c p IH]; simpl; [done|].
  intros Heq. apply IH. by injection Heq.
Qed.

(** Facts about sequencing and loops. *)
Lemma bind_ret_l {St A B} (a : A) (k : A -> M St B) s : bind (ret a) k s = k a s.
Proof. reflexivity. Qed.

Lemma for_each_app {St A} (xs ys : list A) (body : A -> M St unit) s :
  for_each (xs ++ ys) body s
  = bind (for_each xs body) (fun _ => for_each ys body) s.
Proof.
  revert s. induction xs as [|x xs IH]; intros s; simpl; [reflexivity|].
  unfold bind. destruct (body x s) as [s1 [[]|e]]; [|done].
  rewrite IH. reflexivity.
Qed.

Lemma for_each_app_ok {St A} (xs ys : list A) (body : A -> M St unit) s s1 :
  for_each xs body s = (s1, Ok tt) ->
  for_each (xs ++ ys) body s = for_each ys body s1.
Proof. intros Hxs. rewrite for_each_app. by rewrite (bind_ok _ _ _ _ _ Hxs). Qed.

(** A loop stops at the first iteration that raises. *)
Lemma for_each_stops {St A} (xs ys : list A) (x : A) (body : A -> M St unit)
    s s1 s2 e :
  for_each xs body s = (s1, Ok tt) ->
  body x s1 = (s2, Raise e) ->
  for_each (xs ++ x :: ys) body s = (s2, Raise e).
Proof.
  intros Hxs Hx. rewrite (for_each_app_ok _ _ _ _ _ Hxs). simpl.
  by rewrite (bind_raise _ _ _ _ _ Hx).
Qed.

(** ** components/callback.py *)
Module Callback.

(** What [getattr(self, name)] finds on a callback. *)
Inductive attr :=
| AHandler (h : nat)      (* a hookpoint method [def name(self, logs=None)]; [h] names its body *)
| APlain (v : value)      (* a data attribute: not callable *)
| ABaseMethod.            (* the inherited [run] and [setup]: a call [m(logs=logs)] raises TypeError *)

(** A [Callback] is known to [run] by its attribute table; a
    [CallbackPipeline] by its [callbacks], the children it forwards to. *)
#[warnings="-register-all"]
Inductive callback :=
| Cb (attrs : gmap string attr)
| CbPipeline (callbacks : list callback).

(** A keyword argument: a plain value or a callback object. *)
Inductive arg :=
| AVal (v : value)
| ACallbacks (c : callback).

Definition kwargs := gmap string arg.

(** The trace: calls of [callbacks.run(hookpoint=, logs=)] made by the
    guard, and calls of the guarded function. *)
Inductive event :=
| EFire (hookpoint : string) (logs : value)
| ECall (args : list value) (kw : kwargs).

(** [Callback.__init__] sets [component] and [save_path] to [None] on the
    instance; [methods] are the attributes of the instance's class (the
    hookpoint handlers a subclass defines); [run] and [setup] are
    inherited from [Callback] unless the subclass overrides them. *)
Definition Callback_init (methods : gmap string attr) : gmap string attr :=
  <["component" := APlain VNone]> (<["save_path" := APlain VNone]>
    (methods ∪ {["run" := ABaseMethod; "setup" := ABaseMethod]})).

Section Run.
(** The ambient state and the bodies of the user-defined handlers. *)
Context {W : Type}.
Variable handler_body : nat -> value -> M W unit.

(** [Callback.run]: [hasattr(self, hookpoint)] raises TypeError when
    [hookpoint] is not a string (its default is [None]); the attribute
    found is called with [logs=logs] whatever it is. *)
Definition Callback_run (attrs : gmap string attr)
    (hookpoint : option string) (logs : value) : M W unit :=
  match hookpoint with
  | None => raise TypeError
  | Some name =>
      match attrs !! name with
      | None => ret tt
      | Some (AHandler h) => handler_body h logs
      | Some (APlain _) => raise TypeError
      | Some ABaseMethod => raise TypeError
      end
  end.

(** [callback.run(hookpoint=, logs=)] with dynamic dispatch:
    [CallbackPipeline.run] forwards to every child in order. *)
Fixpoint callback_run (c : callback) (hookpoint : option string)
    (logs : value) : M W unit :=
  match c with
  | Cb attrs => Callback_run attrs hookpoint logs
  | CbPipeline cs =>
      (fix go (cs : list callback) : M W unit :=
         match cs with
         | [] => ret tt
         | c' :: cs' => do _ <- callback_run c' hookpoint logs; go cs'
         end) cs
  end.

Definition CallbackPipeline_run (callbacks : list callback)
    (hookpoint : option string) (logs : value) : M W unit :=
  for_each callbacks (fun c => callback_run c hookpoint logs).

(** [callbacks.run(...)] in [func_wrap], on whatever was passed under
    the key: a value that is no callback has no [run]. *)
Definition fire (callbacks : arg) (hookpoint : string) (logs : value)
    : M (traced W event) unit :=
  match callbacks with
  | ACallbacks c =>
      do _ <- emit (EFire hookpoint logs);
      lift (callback_run c (Some hookpoint) logs)
  | AVal _ => raise AttributeError
  end.

(** [callbacks is not None] *)
Definition is_not_None (a : arg) : bool :=
  match a with AVal VNone => false | _ => true end.

(** [hookpoint_guard(func, hookpoint)] returns [func_wrap]. *)
Definition hookpoint_guard
    (func : list value -> kwargs -> M W value) (hookpoint : string)
    (args : list value) (kw : kwargs) : M (traced W event) value :=
  let start_hookpoint := hookpoint +:+ "_begin" in
  let end_hookpoint := hookpoint +:+ "_end" in
  let callbacks :=
    match kw !! "callbacks" with
    | Some a => a
    | None => AVal VNone
    end in
  do _ <- (if is_not_None callbacks
       then fire callbacks start_hookpoint VNone else ret tt);
  do res <- (do _ <- emit (ECall args kw); lift (func args kw));
  do _ <- (if is_not_None callbacks
       then fire callbacks end_hookpoint res else ret tt);
  ret res.

(** [guard(hookpoint)] is [partial(hookpoint_guard, hookpoint=hookpoint)]. *)
Definition guard (hookpoint : string)
    (func : list value -> kwargs -> M W value) :=
  hookpoint_guard func hookpoint.

(** *** Properties of [Callback.run] *)

Lemma Callback_run_no_handler attrs name logs w :
  attrs !! name = None ->
  Callback_run attrs (Some name) logs w = (w, Ok tt).
Proof. intros Hno. unfold Callback_run. by rewrite Hno. Qed.

Lemma Callback_run_handler attrs name h logs :
  attrs !! name = Some (AHandler h) ->
  Callback_run attrs (Some name) logs = handler_body h logs.
Proof. intros Hh. unfold Callback_run. by rewrite Hh. Qed.

Lemma callback_run_pipeline cs hookpoint logs :
  callback_run (CbPipeline cs) hookpoint logs
  = CallbackPipeline_run cs hookpoint logs.
Proof.
  unfold CallbackPipeline_run. simpl.
  induction cs as [|c cs IH]; simpl; [done|]. by rewrite IH.
Qed.

(** C9 (the code does not meet the specification): on a callback as
    [Callback.__init__] leaves it, whatever handlers its class defines,
    [run()] with the default hookpoint ([None]) raises TypeError, and so
    does [run(hookpoint='component')], which finds the data attribute
    [component] and calls it.  Neither is the silent no-op that the
    specification and the method's docstring promise for a hookpoint the
    callback does not define. *)
Theorem Callback_run_unrecognized_hookpoint_raises
    (methods : gmap string attr) (logs : value) (w : W) :
  Callback_run (Callback_init methods) None logs w = (w, Raise TypeError)
  /\ Callback_run (Callback_init methods) (Some "component") logs w
     = (w, Raise TypeError).
Proof.
  split; [done|].
  unfold Callback_run, Callback_init. by rewrite lookup_insert_eq.
Qed.

(** *** Properties of the hookpoint guard *)

Lemma fire_ok c hookpoint logs w w' l :
  callback_run c (Some hookpoint) logs w = (w', Ok tt) ->
  fire (ACallbacks c) hookpoint logs (w, l)
  = ((w', l ++ [EFire hookpoint logs]), Ok tt).
Proof.
  intros Hrun. unfold fire, bind, emit, lift. simpl. by rewrite Hrun.
Qed.

(** X6: [callbacks=None] passed explicitly is treated as no callbacks:
    the guarded call is the call of the function, with no hookpoint. *)
Lemma hookpoint_guard_callbacks_None
    (func : list value -> kwargs -> M W value) (H : string)
    (args : list value) (kw : kwargs) (w w' : W) (l : list event) out :
  kw !! "callbacks" = Some (AVal VNone) ->
  func args kw w = (w', out) ->
  hookpoint_guard func H args kw (w, l) = ((w', l ++ [ECall args kw]), out).
Proof.
  intros Hnone Hf. unfold hookpoint_guard. rewrite Hnone. simpl.
  unfold bind, ret, emit, lift. simpl. rewrite Hf. by destruct out.
Qed.

(** C3: without a [callbacks] keyword the guarded call is the call of
    [func] on the original inputs and nothing else (same final state,
    same outcome, no hookpoint fired).  With a callbacks object under
    that key, and hookpoints and [func] that return, the guard calls
    [callbacks.run(hookpoint=H_begin)] once, then [func] on the original
    inputs, then [callbacks.run(hookpoint=H_end, logs=res)] once with the
    value [func] returned, and returns that value. *)
Theorem hookpoint_guard_spec
    (func : list value -> kwargs -> M W value) (H : string)
    (args : list value) (kw : kwargs) (w : W) (l : list event) :
  (kw !! "callbacks" = None ->
   forall w' out, func args kw w = (w', out) ->
     hookpoint_guard func H args kw (w, l)
     = ((w', l ++ [ECall args kw]), out))
  /\ (forall c w1 w2 w3 res,
       kw !! "callbacks" = Some (ACallbacks c) ->
       callback_run c (Some (H +:+ "_begin")) VNone w = (w1, Ok tt) ->
       func args kw w1 = (w2, Ok res) ->
       callback_run c (Some (H +:+ "_end")) res w2 = (w3, Ok tt) ->
       hookpoint_guard func H args kw (w, l)
       = ((w3, l ++ [EFire (H +:+ "_begin") VNone; ECall args kw;
                     EFire (H +:+ "_end") res]), Ok res)).
Proof.
  split.
  - intros Hno w' out Hf. unfold hookpoint_guard. rewrite Hno. simpl.
    unfold bind, ret, emit, lift. simpl. rewrite Hf.
    by destruct out.
  - intros c w1 w2 w3 res Hcb Hbegin Hf Hend.
    unfold hookpoint_guard. rewrite Hcb. simpl.
    rewrite (bind_ok _ _ _ _ _ (fire_ok _ _ _ _ _ _ Hbegin)).
    unfold bind at 1. unfold bind at 1. unfold emit, lift. simpl.
    rewrite Hf.
    rewrite (bind_ok _ _ _ _ _ (fire_ok _ _ _ _ _ _ Hend)).
    unfold ret. by rewrite <- !app_assoc.
Qed.

(** C10: with a callbacks object under the key and a begin hookpoint
    that returns, if [func] raises [e] the guarded call raises [e]; the
    trace holds the begin hookpoint and the call of [func], and no
    [H_end] hookpoint was fired. *)
Theorem hookpoint_guard_func_raises
    (func : list value -> kwargs -> M W value) (H : string)
    (args : list value) (kw : kwargs) (w w1 w2 : W) (l : list event)
    (c : callback) (e : exn) :
  kw !! "callbacks" = Some (ACallbacks c) ->
  callback_run c (Some (H +:+ "_begin")) VNone w = (w1, Ok tt) ->
  func args kw w1 = (w2, Raise e) ->
  exists l',
    hookpoint_guard func H args kw (w, l) = ((w2, l ++ l'), Raise e)
    /\ l' = [EFire (H +:+ "_begin") VNone; ECall args kw]
    /\ forall logs, EFire (H +:+ "_end") logs ∉ l'.
Proof.
  intros Hcb Hbegin Hf. eexists. split; [|split; [reflexivity|]].
  - unfold hookpoint_guard. rewrite Hcb. simpl.
    rewrite (bind_ok _ _ _ _ _ (fire_ok _ _ _ _ _ _ Hbegin)).
    unfold bind at 1. unfold bind at 1. unfold emit, lift. simpl.
    rewrite Hf. by rewrite <- !app_assoc.
  - intros logs Hin. apply elem_of_cons in Hin as [Heq|Hin].
    + injection Heq as Heq _. by apply string_app_cancel in Heq.
    + apply elem_of_cons in Hin as [Heq|Hin]; [done|].
      by apply elem_of_nil in Hin.
Qed.

End Run.

(** A concrete run: the ambient state is the list of handler invocations
    [(handler, logs)]; the first callback defines both [on_fit] handlers,
    the second defines none. *)
Definition recording_handler (h : nat) (logs : value)
    : M (list (nat * value)) unit :=
  fun w => (w ++ [(h, logs)], Ok tt).

Definition two_callbacks : callback :=
  CbPipeline
    [Cb (Callback_init {["on_fit_begin" := AHandler 0; "on_fit_end" := AHandler 1]});
     Cb (Callback_init ∅)].

Definition returns_seven (args : list value) (kw : kwargs)
    : M (list (nat * value)) value :=
  fun w => (w, Ok (VInt 7)).

Definition raises_user_error (args : list value) (kw : kwargs)
    : M (list (nat * value)) value :=
  fun w => (w, Raise (UserError "boom")).

Lemma hookpoint_guard_spec_witness :
  hookpoint_guard recording_handler returns_seven "on_fit" [VInt 1] ∅ ([], [])
  = (([], [ECall [VInt 1] ∅]), Ok (VInt 7))
  /\ hookpoint_guard recording_handler returns_seven "on_fit" [VInt 1]
       {["callbacks" := ACallbacks two_callbacks]} ([], [])
     = (([(0, VNone); (1, VInt 7)],
         [EFire "on_fit_begin" VNone;
          ECall [VInt 1] {["callbacks" := ACallbacks two_callbacks]};
          EFire "on_fit_end" (VInt 7)]), Ok (VInt 7)).
Proof.
  split.
  - apply (proj1 (hookpoint_guard_spec recording_handler returns_seven
                    "on_fit" [VInt 1] ∅ [] [])); reflexivity.
  - apply (proj2 (hookpoint_guard_spec recording_handler returns_seven
                    "on_fit" [VInt 1]
                    {["callbacks" := ACallbacks two_callbacks]} [] [])
                 two_callbacks [(0, VNone)] [(0, VNone)]
                 [(0, VNone); (1, VInt 7)] (VInt 7));
      vm_compute; reflexivity.
Defined.

Lemma hookpoint_guard_func_raises_witness :
  exists l',
    hookpoint_guard recording_handler raises_user_error "on_fit" []
      {["callbacks" := ACallbacks two_callbacks]} ([], [])
    = (([(0, VNone)], [] ++ l'), Raise (UserError "boom"))
    /\ l' = [EFire "on_fit_begin" VNone;
             ECall [] {["callbacks" := ACallbacks two_callbacks]}]
    /\ forall logs, EFire "on_fit_end" logs ∉ l'.
Proof.
  apply (hookpoint_guard_func_raises recording_handler raises_user_error
           "on_fit" [] {["callbacks" := ACallbacks two_callbacks]}
           [] [(0, VNone)] [(0, VNone)] [] two_callbacks (UserError "boom"));
    vm_compute; reflexivity.
Defined.

(** *** More on the callback pipeline and the hookpoint guard *)

Section RunProperties.
Context {W : Type}.
Variable handler_body : nat -> value -> M W unit.

(** The handler a callback defines for a hookpoint, if any. *)
Definition handler_for (name : string) (attrs : gmap string attr) : option nat :=
  match attrs !! name with
  | Some (AHandler h) => Some h
  | _ => None
  end.

(** X1: a pipeline of callbacks each of which either lacks the hookpoint
    or defines a handler for it runs exactly the handlers of the callbacks
    that define one, in the declared order of the callbacks, each with the
    same [logs]. *)
Theorem CallbackPipeline_run_only_implementing
    (children : list (gmap string attr)) (name : string) (logs : value) (w : W) :
  Forall (fun attrs => attrs !! name = None
                       \/ exists h, attrs !! name = Some (AHandler h)) children ->
  CallbackPipeline_run handler_body (Cb <$> children) (Some name) logs w
  = for_each (omap (handler_for name) children)
      (fun h => handler_body h logs) w.
Proof.
  intros Hall. revert w. unfold CallbackPipeline_run.
  induction Hall as [|attrs children Hattrs _ IH]; intros w; [done|].
  rewrite fmap_cons. cbn [for_each callback_run omap list_omap].
  unfold handler_for at 1, Callback_run.
  destruct Hattrs as [->|[h ->]].
  - rewrite bind_ret_l. apply IH.
  - cbn [for_each]. unfold bind.
    destruct (handler_body h logs w) as [w1 [[]|e]]; [apply IH|done].
Qed.

(** X2: a pipeline stops at the first child whose [run] raises: the
    exception propagates from the state that child left, and the children
    declared after it are not run, whatever they are. *)
Theorem CallbackPipeline_run_stops_at_first_raise
    (before after : list callback) (c : callback)
    (hookpoint : option string) (logs : value) (w w1 w2 : W) (e : exn) :
  CallbackPipeline_run handler_body before hookpoint logs w = (w1, Ok tt) ->
  callback_run handler_body c hookpoint logs w1 = (w2, Raise e) ->
  CallbackPipeline_run handler_body (before ++ c :: after) hookpoint logs w
  = (w2, Raise e).
Proof. intros Hbefore Hc. by eapply for_each_stops. Qed.

(** X3: a pipeline nested in a pipeline behaves as its children spliced
    in at its place. *)
Theorem CallbackPipeline_run_nested
    (inner rest : list callback) (hookpoint : option string) (logs : value)
    (w : W) :
  CallbackPipeline_run handler_body (CbPipeline inner :: rest) hookpoint logs w
  = CallbackPipeline_run handler_body (inner ++ rest) hookpoint logs w.
Proof.
  unfold CallbackPipeline_run. rewrite for_each_app. cbn [for_each].
  by rewrite callback_run_pipeline.
Qed.

(** X4: when the begin hookpoint raises, the guarded function is not
    called: the exception propagates from the state the hookpoint left, and
    the trace holds the begin hookpoint only. *)
Theorem hookpoint_guard_begin_raises
    (func : list value -> kwargs -> M W value) (H : string)
    (args : list value) (kw : kwargs) (c : callback)
    (w w1 : W) (l : list event) (e : exn) :
  kw !! "callbacks" = Some (ACallbacks c) ->
  callback_run handler_body c (Some (H +:+ "_begin")) VNone w = (w1, Raise e) ->
  hookpoint_guard handler_body func H args kw (w, l)
  = ((w1, l ++ [EFire (H +:+ "_begin") VNone]), Raise e).
Proof.
  intros Hcb Hbegin. unfold hookpoint_guard. rewrite Hcb. simpl.
  unfold bind at 1. unfold fire, bind, emit, lift. simpl. by rewrite Hbegin.
Qed.

(** X5: when the end hookpoint raises, the guarded call raises although
    the function has returned: its return value is lost, its effects
    stay. *)
Theorem hookpoint_guard_end_raises
    (func : list value -> kwargs -> M W value) (H : string)
    (args : list value) (kw : kwargs) (c : callback)
    (w w1 w2 w3 : W) (l : list event) (res : value) (e : exn) :
  kw !! "callbacks" = Some (ACallbacks c) ->
  callback_run handler_body c (Some (H +:+ "_begin")) VNone w = (w1, Ok tt) ->
  func args kw w1 = (w2, Ok res) ->
  callback_run handler_body c (Some (H +:+ "_end")) res w2 = (w3, Raise e) ->
  hookpoint_guard handler_body func H args kw (w, l)
  = ((w3, l ++ [EFire (H +:+ "_begin") VNone; ECall args kw;
                EFire (H +:+ "_end") res]), Raise e).
Proof.
  intros Hcb Hbegin Hf Hend. unfold hookpoint_guard. rewrite Hcb. simpl.
  rewrite (bind_ok _ _ _ _ _ (fire_ok _ _ _ _ _ _ _ Hbegin)).
  unfold bind at 1. unfold bind at 1. unfold emit, lift. simpl. rewrite Hf.
  unfold bind at 1. unfold fire, bind, emit, lift. simpl. rewrite Hend.
  by rewrite <- !app_assoc.
Qed.

(** X7: a value under [callbacks] that is neither [None] nor a callback
    has no [run]: the guarded call raises AttributeError before the
    function is called, and nothing else happens. *)
Theorem hookpoint_guard_not_a_callback
    (func : list value -> kwargs -> M W value) (H : string)
    (args : list value) (kw : kwargs) (v : value) (s : traced W event) :
  kw !! "callbacks" = Some (AVal v) ->
  v ≠ VNone ->
  hookpoint_guard handler_body func H args kw s = (s, Raise AttributeError).
Proof.
  intros Hcb Hv. unfold hookpoint_guard. rewrite Hcb.
  destruct v; [done|..]; reflexivity.
Qed.

End RunProperties.

(** A handler that raises when it is handler 9, and records its call
    otherwise. *)
Definition flaky_handler (h : nat) (logs : value)
    : M (list (nat * value)) unit :=
  fun w => if decide (h = 9) then (w, Raise (UserError "hook failed"))
           else (w ++ [(h, logs)], Ok tt).

Lemma CallbackPipeline_run_only_implementing_witness :
  CallbackPipeline_run recording_handler
    (Cb <$> [ {["on_fit_end" := AHandler 3]}; ∅; {["on_fit_end" := AHandler 5]} ])
    (Some "on_fit_end") (VInt 7) []
  = for_each (omap (handler_for "on_fit_end")
                [ {["on_fit_end" := AHandler 3]}; ∅; {["on_fit_end" := AHandler 5]} ])
      (fun h => recording_handler h (VInt 7)) [].
Proof.
  apply (CallbackPipeline_run_only_implementing recording_handler).
  constructor; [right; by exists 3|].
  constructor; [by left|].
  constructor; [right; by exists 5|].
  constructor.
Defined.

Lemma CallbackPipeline_run_stops_at_first_raise_witness :
  CallbackPipeline_run flaky_handler
    ([Cb {["on_fit_end" := AHandler 1]}]
     ++ Cb {["on_fit_end" := AHandler 9]} :: [Cb {["on_fit_end" := AHandler 2]}])
    (Some "on_fit_end") VNone []
  = ([(1, VNone)], Raise (UserError "hook failed")).
Proof.
  apply (CallbackPipeline_run_stops_at_first_raise flaky_handler
           [Cb {["on_fit_end" := AHandler 1]}]
           [Cb {["on_fit_end" := AHandler 2]}]
           (Cb {["on_fit_end" := AHandler 9]})
           (Some "on_fit_end") VNone [] [(1, VNone)] [(1, VNone)]);
    vm_compute; reflexivity.
Defined.

Lemma hookpoint_guard_callbacks_None_witness :
  hookpoint_guard recording_handler returns_seven "on_fit" []
    {["callbacks" := AVal VNone]} ([], [])
  = (([], [] ++ [ECall [] {["callbacks" := AVal VNone]}]), Ok (VInt 7)).
Proof.
  apply (hookpoint_guard_callbacks_None recording_handler returns_seven
           "on_fit" [] {["callbacks" := AVal VNone]} [] [] []);
    reflexivity.
Defined.

Lemma hookpoint_guard_begin_raises_witness :
  hookpoint_guard flaky_handler returns_seven "on_fit" []
    {["callbacks" := ACallbacks (Cb {["on_fit_begin" := AHandler 9]})]} ([], [])
  = (([], [] ++ [EFire "on_fit_begin" VNone]), Raise (UserError "hook failed")).
Proof.
  apply (hookpoint_guard_begin_raises flaky_handler returns_seven "on_fit" []
           {["callbacks" := ACallbacks (Cb {["on_fit_begin" := AHandler 9]})]}
           (Cb {["on_fit_begin" := AHandler 9]}));
    vm_compute; reflexivity.
Defined.

Lemma hookpoint_guard_end_raises_witness :
  hookpoint_guard flaky_handler returns_seven "on_fit" []
    {["callbacks" := ACallbacks (Cb {["on_fit_end" := AHandler 9]})]} ([], [])
  = (([], [] ++ [EFire "on_fit_begin" VNone;
                 ECall [] {["callbacks" := ACallbacks (Cb {["on_fit_end" := AHandler 9]})]};
                 EFire "on_fit_end" (VInt 7)]),
     Raise (UserError "hook failed")).
Proof.
  apply (hookpoint_guard_end_raises flaky_handler returns_seven "on_fit" []
           {["callbacks" := ACallbacks (Cb {["on_fit_end" := AHandler 9]})]}
           (Cb {["on_fit_end" := AHandler 9]}) [] [] [] [] [] (VInt 7));
    vm_compute; reflexivity.
Defined.

Lemma hookpoint_guard_not_a_callback_witness :
  hookpoint_guard recording_handler returns_seven "on_fit" []
    {["callbacks" := AVal (VInt 3)]} ([], [])
  = (([], []), Raise AttributeError).
Proof.
  apply (hookpoint_guard_not_a_callback recording_handler returns_seven
           "on_fit" [] {["callbacks" := AVal (VInt 3)]} (VInt 3));
    [reflexivity|discriminate].
Defined.

End Callback.

(** ** components/calibrator.py *)
Module Calibrator.

Inductive ValidateCondition := MAXIMIZATION | MINIMIZATION.

(** A hyper-parameter combination ([Dict[str, Any]]), a grid search space
    (parameter name to candidate values), the keyword arguments of
    [validator.run] and the record a validator run returns (read with
    [get_field(key=...).value]). *)
Abbreviation combination := (gmap string value).
Abbreviation search_space := (gmap string (list value)).
Abbreviation run_args := (gmap string value).
Abbreviation run_results := (gmap string value).

(** The trace: the two [logger.info] lines of the calibrator. *)
Inductive event :=
| EStarting (total : nat)           (* 'Starting hyper-parameters calibration search! Total combinations: ..' *)
| EConsidering (c : combination).   (* 'Considering hyper-parameters: ..' *)


(** *** The library functions [GridSearchCalibrator.run] calls *)

(** [get_dict_values_combinations] of the core library (its source is not
    among the files; the spec has it as the "enumeration of every
    combination across a map of candidate-value lists"): the cartesian
    product of the candidate lists, taken in the sorted order of the
    parameter names with the last name varying fastest, one dictionary per
    choice of a candidate for every parameter.  A dictionary without
    entries is left out, so that the empty space has no combination. *)
Fixpoint combinations_of (entries : list (string * list value))
    : list combination :=
  match entries with
  | [] => [∅]
  | (k, vs) :: rest =>
      vs ≫= (fun v => (fun c : combination => <[k := v]> c) <$> combinations_of rest)
  end.

Definition key_le (a b : string * list value) : Prop :=
  String.leb a.1 b.1 = true.

#[global] Instance key_le_dec a b : Decision (key_le a b).
Proof. unfold key_le. apply _. Defined.

(** [sorted(params_dict)], each name with its candidates. *)
Definition sorted_entries (space : search_space) : list (string * list value) :=
  merge_sort key_le (map_to_list space).

Definition get_dict_values_combinations (space : search_space)
    : list combination :=
  filter (fun c : combination => size c ≠ 0)
    (combinations_of (sorted_entries space)).

(** The product of the lengths of the candidate lists. *)
Definition product_of_lengths (space : search_space) : nat :=
  foldr (fun e n => length e.2 * n) 1 (map_to_list space).

(** The stable ascending arrangement of [xs] by a numeric key, computed
    by insertion: an element goes before the already sorted later
    elements whose key is not smaller. *)
Fixpoint insert_sorted {A} (key : A -> Qc) (x : A) (l : list A) : list A :=
  match l with
  | [] => [x]
  | y :: l' =>
      if bool_decide (key x ≤ key y)%Qc then x :: y :: l'
      else y :: insert_sorted key x l'
  end.

Fixpoint py_sorted {A} (key : A -> Qc) (l : list A) : list A :=
  match l with
  | [] => []
  | x :: l' => insert_sorted key x (py_sorted key l')
  end.

(** [best] is the first element of [l] whose numeric key is least. *)
Definition first_least {A} (key : A -> Qc) (l : list A) (best : A) : Prop :=
  exists i,
    l !! i = Some best
    /\ (forall j p, l !! j = Some p -> (key best ≤ key p)%Qc)
    /\ (forall j p, l !! j = Some p -> j < i -> (key best < key p)%Qc).

(** [best] is the first element of [l] whose float key is minimal, in
    the order of Python's comparisons: [key best <= key p] for every [p]
    of [l], and [key best < key p] for those before [best]. *)
Definition first_minimum {A} (key : A -> pyfloat) (l : list A) (best : A) : Prop :=
  exists i,
    l !! i = Some best
    /\ (forall j p, l !! j = Some p -> float_le (key best) (key p))
    /\ (forall j p, l !! j = Some p -> j < i -> float_lt (key best) (key p)).

Lemma length_combinations_of entries :
  length (combinations_of entries)
  = foldr (fun e n => length e.2 * n) 1 entries.
Proof.
  induction entries as [|[k vs] rest IH]; simpl; [done|].
  rewrite <- IH. generalize (combinations_of rest) as cs. intros cs.
  induction vs as [|v vs IHvs]; [done|].
  rewrite bind_cons, length_app, length_fmap, IHvs. done.
Qed.

Lemma elem_of_combinations_of entries (c : combination) :
  NoDup entries.*1 ->
  c ∈ combinations_of entries
  <-> dom c = list_to_set entries.*1
      /\ forall k vs, (k, vs) ∈ entries -> exists v, c !! k = Some v /\ v ∈ vs.
Proof.
  revert c. induction entries as [|[k vs] rest IH]; intros c Hnd; simpl.
  - rewrite list_elem_of_singleton. split.
    + intros ->. split; [by rewrite dom_empty_L|].
      intros k vs Hin. by apply elem_of_nil in Hin.
    + intros [Hdom _]. by apply dom_empty_iff_L.
  - apply NoDup_cons in Hnd as [Hk Hnd]. rewrite list_elem_of_bind. split.
    + intros (v & Hc & Hv). apply list_elem_of_fmap in Hc as (c' & -> & Hc').
      apply IH in Hc' as [Hdom Hall]; [|done]. split.
      * by rewrite dom_insert_L, Hdom.
      * intros k' vs' Hin. apply elem_of_cons in Hin as [Heq|Hin].
        -- injection Heq as -> ->. exists v. by rewrite lookup_insert_eq.
        -- assert (k ≠ k') as Hne.
           { intros ->. apply Hk. apply list_elem_of_fmap.
             by exists (k', vs'). }
           rewrite lookup_insert_ne by done. by apply Hall.
    + intros [Hdom Hall].
      destruct (Hall k vs) as (v & Hcv & Hv); [by left|].
      exists v. split; [|done]. apply list_elem_of_fmap.
      exists (delete k c). split; [by rewrite insert_delete_id|].
      apply IH; [done|]. split.
      * rewrite dom_delete_L, Hdom.
        assert (k ∉ (list_to_set rest.*1 : gset string)) as Hk'
          by by rewrite elem_of_list_to_set.
        apply set_eq. intros y.
        rewrite elem_of_difference, elem_of_union, !elem_of_singleton.
        split; [intros [[->|Hy] Hne]; done|].
        intros Hy. split; [by right|]. by intros ->.
      * intros k' vs' Hin.
        assert (k ≠ k') as Hne.
        { intros ->. apply Hk. apply list_elem_of_fmap. by exists (k', vs'). }
        rewrite lookup_delete_ne by done. apply Hall. by right.
Qed.

(** The sorted entries are the entries of the space. *)
Lemma sorted_entries_Permutation (space : search_space) :
  sorted_entries space ≡ₚ map_to_list space.
Proof. apply merge_sort_Permutation. Qed.

Lemma elem_of_sorted_entries (space : search_space) k vs :
  (k, vs) ∈ sorted_entries space <-> space !! k = Some vs.
Proof. rewrite sorted_entries_Permutation. apply elem_of_map_to_list. Qed.

Lemma NoDup_sorted_entries (space : search_space) :
  NoDup (sorted_entries space).*1.
Proof. rewrite sorted_entries_Permutation. apply NoDup_fst_map_to_list. Qed.

Lemma dom_sorted_entries (space : search_space) :
  list_to_set (sorted_entries space).*1 = dom space.
Proof.
  apply set_eq. intros k. rewrite elem_of_list_to_set, list_elem_of_fmap, elem_of_dom.
  split.
  - intros ([k' vs] & -> & Hin). apply elem_of_sorted_entries in Hin. by eexists.
  - intros [vs Hk]. exists (k, vs). split; [done|].
    by apply elem_of_sorted_entries.
Qed.

Lemma filter_all {A} (P : A -> Prop) `{!forall x, Decision (P x)} (l : list A) :
  Forall P l -> filter P l = l.
Proof.
  induction 1 as [|x l Hx _ IH]; [done|].
  by rewrite filter_cons_True, IH.
Qed.

(** The empty space has no combination. *)
Lemma get_dict_values_combinations_empty :
  get_dict_values_combinations ∅ = [].
Proof.
  unfold get_dict_values_combinations, sorted_entries.
  rewrite map_to_list_empty. reflexivity.
Qed.

(** On any other space no combination is left out. *)
Lemma get_dict_values_combinations_nonempty (space : search_space) :
  space ≠ ∅ ->
  get_dict_values_combinations space = combinations_of (sorted_entries space).
Proof.
  intros Hne. apply filter_all, Forall_forall. intros c Hc.
  apply elem_of_combinations_of in Hc as [Hdom _]; [|apply NoDup_sorted_entries].
  rewrite dom_sorted_entries in Hdom.
  rewrite <- (size_dom (D := gset string)), Hdom, size_dom.
  by rewrite map_size_empty_iff.
Qed.

(** The combinations are exactly the choices of one candidate per
    parameter of the search space. *)
Lemma elem_of_get_dict_values_combinations (space : search_space)
    (c : combination) :
  space ≠ ∅ ->
  c ∈ get_dict_values_combinations space
  <-> dom c = dom space
      /\ forall k vs, space !! k = Some vs -> exists v, c !! k = Some v /\ v ∈ vs.
Proof.
  intros Hne. rewrite get_dict_values_combinations_nonempty by done.
  rewrite elem_of_combinations_of by apply NoDup_sorted_entries.
  rewrite dom_sorted_entries.
  split; intros [Hdom Hall]; (split; [done|]); intros k vs Hin;
    apply Hall; by apply elem_of_sorted_entries.
Qed.

Lemma NoDup_combinations_of entries :
  NoDup entries.*1 ->
  Forall (fun e : string * list value => NoDup e.2) entries ->
  NoDup (combinations_of entries).
Proof.
  induction entries as [|[k vs] rest IH]; simpl; intros Hkeys Hvals.
  - apply NoDup_singleton.
  - apply NoDup_cons in Hkeys as [Hk Hkeys].
    apply Forall_cons in Hvals as [Hvs Hvals]. simpl in Hvs.
    assert (forall c : combination, c ∈ combinations_of rest -> c !! k = None)
      as Hfresh.
    { intros c [Hdom _]%elem_of_combinations_of; [|done].
      apply not_elem_of_dom. rewrite Hdom. by rewrite elem_of_list_to_set. }
    apply NoDup_bind; [| |done].
    + intros v1 v2 c _ _ (c1 & -> & _)%list_elem_of_fmap
        (c2 & Heq & _)%list_elem_of_fmap.
      apply (f_equal (fun m : combination => m !! k)) in Heq.
      rewrite !lookup_insert_eq in Heq. congruence.
    + intros v _. apply NoDup_fmap_2_strong; [|by apply IH].
      intros c1 c2 Hc1 Hc2 Heq.
      apply (f_equal (delete k)) in Heq.
      by rewrite !delete_insert_id in Heq by by apply Hfresh.
Qed.

(** With candidate lists free of repetitions, every combination is
    enumerated once. *)
Lemma NoDup_get_dict_values_combinations (space : search_space) :
  (forall k vs, space !! k = Some vs -> NoDup vs) ->
  NoDup (get_dict_values_combinations space).
Proof.
  intros Hvals. apply NoDup_filter.
  apply NoDup_combinations_of; [apply NoDup_sorted_entries|].
  apply Forall_forall. intros [k vs] Hin. simpl.
  apply (Hvals k). by apply elem_of_sorted_entries.
Qed.

Lemma product_Permutation (l l' : list (string * list value)) :
  l ≡ₚ l' ->
  foldr (fun e n => length e.2 * n) 1 l = foldr (fun e n => length e.2 * n) 1 l'.
Proof.
  induction 1 as [|x l l' _ IH|x y l|l l' l'' _ IH1 _ IH2]; simpl;
    [done|by rewrite IH|lia|by rewrite IH1].
Qed.

Lemma length_get_dict_values_combinations (space : search_space) :
  space ≠ ∅ ->
  length (get_dict_values_combinations space) = product_of_lengths space.
Proof.
  intros Hne. rewrite get_dict_values_combinations_nonempty by done.
  rewrite length_combinations_of. apply product_Permutation.
  apply sorted_entries_Permutation.
Qed.

(** With non-empty candidate lists there is at least one combination. *)
Lemma product_of_lengths_pos (space : search_space) :
  (forall k vs, space !! k = Some vs -> vs ≠ []) ->
  0 < product_of_lengths space.
Proof.
  intros Hne. unfold product_of_lengths.
  assert (Forall (fun e : string * list value => e.2 ≠ []) (map_to_list space)) as Hall.
  { apply Forall_forall. intros [k vs] Hin. simpl.
    apply (Hne k). by apply elem_of_map_to_list. }
  induction Hall as [|[k vs] rest Hvs _ IH]; simpl; [lia|].
  simpl in Hvs. destruct vs; [done|]. simpl. lia.
Qed.

Lemma insert_sorted_head {A} (key : A -> Qc) x l :
  exists rest,
    insert_sorted key x l
    = match l with
      | [] => x
      | y :: _ => if bool_decide (key x ≤ key y)%Qc then x else y
      end :: rest.
Proof.
  destruct l as [|y l]; simpl; [by eexists|].
  case_bool_decide; by eexists.
Qed.

Lemma py_sorted_nil_inv {A} (key : A -> Qc) l : py_sorted key l = [] -> l = [].
Proof.
  destruct l as [|x l]; [done|]. simpl.
  destruct (insert_sorted_head key x (py_sorted key l)) as [rest ->]. done.
Qed.

(** The head of the sorted list is the first least element of the
    input. *)
Lemma py_sorted_head_first_least {A} (key : A -> Qc) l best rest :
  py_sorted key l = best :: rest -> first_least key l best.
Proof.
  revert best rest. induction l as [|x l IH]; intros best rest; [done|].
  simpl. destruct (insert_sorted_head key x (py_sorted key l)) as [rest' Hhd].
  rewrite Hhd. intros [= <- _].
  destruct (py_sorted key l) as [|b tl] eqn:Hsort.
  - apply py_sorted_nil_inv in Hsort as ->. exists 0. split; [done|].
    split; [|intros; lia].
    intros [|j] p Hp; simpl in Hp.
    + injection Hp as <-. reflexivity.
    + by rewrite lookup_nil in Hp.
  - destruct (IH b tl eq_refl) as (i & Hi & Hle & Hlt).
    case_bool_decide as Hxb.
    + exists 0. split; [done|]. split; [|intros; lia].
      intros [|j] p Hp; simpl in Hp.
      * injection Hp as <-. reflexivity.
      * etrans; [exact Hxb|]. by eapply Hle.
    + apply Qclt_nge in Hxb. exists (S i). split; [done|]. split.
      * intros [|j] p Hp; simpl in Hp.
        -- injection Hp as <-. by apply Qclt_le_weak.
        -- by eapply Hle.
      * intros [|j] p Hp Hj; simpl in Hp.
        -- by injection Hp as <-.
        -- eapply Hlt; [done|lia].
Qed.

(** On keys that are numbers, the first least element is the first
    minimum in the order of the float comparisons. *)
Lemma first_least_first_minimum {A} (key : A -> pyfloat) l best :
  Forall (fun p => is_number (key p) = true) l ->
  first_least (fun p => number_of (key p)) l best ->
  first_minimum key l best.
Proof.
  intros Hnum (i & Hi & Hle & Hlt). rewrite Forall_forall in Hnum.
  assert (forall j p, l !! j = Some p -> key p = FNum (number_of (key p))) as Hkey.
  { intros j p Hp. specialize (Hnum p (list_elem_of_lookup_2 _ _ _ Hp)).
    by destruct (key p). }
  exists i. split; [done|]. split.
  - intros j p Hp. rewrite (Hkey _ _ Hi), (Hkey _ _ Hp). simpl. by eapply Hle.
  - intros j p Hp Hj. rewrite (Hkey _ _ Hi), (Hkey _ _ Hp). simpl. by eapply Hlt.
Qed.

(** With a [nan] among the keys no element is minimal: [nan] is neither
    below nor above any float. *)
Lemma first_minimum_numbers {A} (key : A -> pyfloat) l best :
  first_minimum key l best ->
  Forall (fun p => is_number (key p) = true) l.
Proof.
  intros (i & Hi & Hle & _). apply Forall_forall. intros p Hp.
  apply list_elem_of_lookup in Hp as [j Hj]. specialize (Hle j p Hj).
  destruct (key best), (key p); done.
Qed.

(** [py_sorted] is a stable sort: a rearrangement of its input, in
    ascending key order, that keeps elements of equal key in their
    original order. *)
Lemma insert_sorted_Permutation {A} (key : A -> Qc) x l :
  insert_sorted key x l ≡ₚ x :: l.
Proof.
  induction l as [|y l IH]; simpl; [done|].
  case_bool_decide; [done|]. rewrite IH. apply perm_swap.
Qed.

Lemma py_sorted_Permutation {A} (key : A -> Qc) l : py_sorted key l ≡ₚ l.
Proof.
  induction l as [|x l IH]; simpl; [done|].
  by rewrite insert_sorted_Permutation, IH.
Qed.

Lemma insert_sorted_StronglySorted {A} (key : A -> Qc) x l :
  StronglySorted (fun a b => key a ≤ key b)%Qc l ->
  StronglySorted (fun a b => key a ≤ key b)%Qc (insert_sorted key x l).
Proof.
  induction 1 as [|y l Hl IH Hy]; simpl.
  - repeat constructor.
  - case_bool_decide as Hxy.
    + constructor; [by constructor|]. constructor; [done|].
      eapply Forall_impl; [exact Hy|]. intros z Hz. simpl in Hz. by etrans.
    + constructor; [done|].
      rewrite (insert_sorted_Permutation key x l). constructor; [|done].
      apply Qclt_le_weak. by apply Qclt_nge.
Qed.

Lemma py_sorted_StronglySorted {A} (key : A -> Qc) l :
  StronglySorted (fun a b => key a ≤ key b)%Qc (py_sorted key l).
Proof.
  induction l as [|x l IH]; simpl; [constructor|].
  by apply insert_sorted_StronglySorted.
Qed.

Lemma py_sorted_stable {A} (key : A -> Qc) (k : Qc) l :
  filter (fun a => key a = k) (py_sorted key l)
  = filter (fun a => key a = k) l.
Proof.
  assert (Hins : forall x l',
    filter (fun a => key a = k) (insert_sorted key x l')
    = filter (fun a => key a = k) (x :: l')).
  { intros x l'. induction l' as [|y l' IH]; simpl; [done|].
    case_bool_decide as Hxy; [done|]. apply Qclt_nge in Hxy.
    rewrite (filter_cons _ y), IH, !(filter_cons _ x), !(filter_cons _ y).
    destruct (decide (key y = k)) as [Hy|Hy];
      destruct (decide (key x = k)) as [Hx|Hx]; try done.
    rewrite Hx, Hy in Hxy. by apply Qclt_not_eq in Hxy. }
  induction l as [|x l IH]; simpl; [done|].
  by rewrite Hins, !filter_cons, IH.
Qed.

Section Calibration.
Context {W : Type}.

(** What Python's sort returns on scores with a [nan] among them: the
    comparisons are then no order, and the result depends on the sorting
    algorithm. *)
Variable sort_with_nan :
  list (pyfloat * combination) -> list (pyfloat * combination).

(** [sorted(calibration_results, key=lambda pair: pair[0])].  Python's
    sort is stable, so on scores that are all numbers its result is the
    one stable rearrangement in ascending order of the scores,
    [py_sorted]. *)
Definition sorted (calibration_results : list (pyfloat * combination))
    : list (pyfloat * combination) :=
  if forallb (fun pair => is_number pair.1) calibration_results
  then py_sorted (fun pair => number_of pair.1) calibration_results
  else sort_with_nan calibration_results.

(** A delta copy of the validator: its [run], called with the keyword
    arguments [validator_args]. *)
Record Component := { comp_run : run_args -> M W run_results }.

(** The validator as the calibrator uses it:
    [validator.config.get_search_space()] and
    [validator.get_delta_copy(params_dict=...)]. *)
Record Validator := {
  get_search_space : result (option search_space);
  get_delta_copy : combination -> M W Component
}.

(** The calibrator: the two attributes [set_validator] assigns ([None]
    until then; [validator_args] defaults to [None]) and the two
    parameters of [CalibratorConfig]. *)
Record Calibrator := {
  validator : option Validator;
  validator_args : option run_args;
  validate_on : string;
  validate_condition : ValidateCondition
}.

Definition set_validator (self : Calibrator) (v : Validator)
    (args : option run_args) : Calibrator :=
  {| validator := Some v; validator_args := args;
     validate_on := validate_on self;
     validate_condition := validate_condition self |}.

(** [Calibrator.evaluate_combination].  Unpacking [validator_args] when
    it is [None] raises TypeError; reading a field the result does not have is an error of
    the result record ([KeyError] here); a value that is [None] or whose
    type is not exactly [float] raises RuntimeError. *)
Definition evaluate_combination (self : Calibrator)
    (parameter_combination : combination) : M (traced W event) pyfloat :=
  do _ <- emit (EConsidering parameter_combination);
  match validator self with
  | None => raise AttributeError
  | Some v =>
      do copy <- lift (get_delta_copy v parameter_combination);
      match validator_args self with
      | None => raise TypeError
      | Some args =>
          do validator_results <- lift (comp_run copy args);
          match validator_results !! validate_on self with
          | None => raise KeyError
          | Some (VFloat validation_on_value) =>
              match validate_condition self with
              | MAXIMIZATION => ret (float_neg validation_on_value)
              | MINIMIZATION => ret validation_on_value
              end
          | Some _ => raise RuntimeError
          end
      end
  end.

(** Every evaluation writes its one log line, whatever its outcome. *)
Lemma evaluate_combination_trace self c w l w' l' out :
  evaluate_combination self c (w, l) = ((w', l'), out) ->
  l' = l ++ [EConsidering c].
Proof.
  unfold evaluate_combination, bind, emit, lift, raise, ret. simpl.
  destruct (validator self) as [v|]; simpl; [|by inversion 1].
  destruct (get_delta_copy v c w) as [w1 [copy|e]]; simpl;
    [|by inversion 1].
  destruct (validator_args self) as [args|]; simpl; [|by inversion 1].
  destruct (comp_run copy args w1) as [w2 [res|e]]; simpl;
    [|by inversion 1].
  destruct (res !! validate_on self) as [[| | |q|]|];
    try destruct (validate_condition self); simpl; by inversion 1.
Qed.

(** C2 (amended): once the validator's delta copy has run and returned
    its result record, [evaluate_combination] raises exactly when the
    monitored field is missing from the record or holds anything but a
    value of type float ([None], but also an int, a bool or a string); on
    a float it returns the value negated under MAXIMIZATION and unchanged
    under MINIMIZATION. *)
Theorem evaluate_combination_metric
    (self : Calibrator) (v : Validator) (args : run_args)
    (c : combination) (copy : Component) (res : run_results)
    (w w1 w2 : W) (l : list event) :
  validator self = Some v ->
  validator_args self = Some args ->
  get_delta_copy v c w = (w1, Ok copy) ->
  comp_run copy args w1 = (w2, Ok res) ->
  ((exists e, evaluate_combination self c (w, l)
              = ((w2, l ++ [EConsidering c]), Raise e))
   <-> ~ exists q, res !! validate_on self = Some (VFloat q))
  /\ (forall q, res !! validate_on self = Some (VFloat q) ->
      evaluate_combination self c (w, l)
      = ((w2, l ++ [EConsidering c]),
         Ok (match validate_condition self with
             | MAXIMIZATION => float_neg q
             | MINIMIZATION => q
             end))).
Proof.
  intros Hv Hargs Hcopy Hrun.
  assert (Heval : evaluate_combination self c (w, l)
    = match res !! validate_on self with
      | None => ((w2, l ++ [EConsidering c]), Raise KeyError)
      | Some (VFloat q) =>
          ((w2, l ++ [EConsidering c]),
           Ok (match validate_condition self with
               | MAXIMIZATION => float_neg q
               | MINIMIZATION => q
               end))
      | Some _ => ((w2, l ++ [EConsidering c]), Raise RuntimeError)
      end).
  { unfold evaluate_combination, bind, emit, lift, raise, ret. simpl.
    rewrite Hv. simpl. rewrite Hcopy. simpl. rewrite Hargs. simpl.
    rewrite Hrun. simpl.
    destruct (res !! validate_on self) as [[| | |q|]|]; try done.
    by destruct (validate_condition self). }
  rewrite Heval. split.
  - destruct (res !! validate_on self) as [[| | |q|]|]; split;
      try (intros _ [q' Hq]; discriminate);
      try (intros _; eexists; reflexivity).
    + intros [e He]. discriminate.
    + intros Hno. destruct Hno. by exists q.
  - intros q Hq. by rewrite Hq.
Qed.

(** *** GridSearchCalibrator *)

(** The loop of [GridSearchCalibrator.run]: every combination is
    evaluated in turn and [(combination_result, combination)] is
    appended to [calibration_results]. *)
Fixpoint evaluate_loop (self : Calibrator) (combinations : list combination)
    (calibration_results : list (pyfloat * combination))
    : M (traced W event) (list (pyfloat * combination)) :=
  match combinations with
  | [] => ret calibration_results
  | c :: rest =>
      do combination_result <- evaluate_combination self c;
      evaluate_loop self rest
        (calibration_results ++ [(combination_result, c)])
  end.

(** [GridSearchCalibrator.run].  The pair returned is
    [calibration_results[0]] after sorting: a (score, combination) pair. *)
Definition GridSearchCalibrator_run (self : Calibrator)
    : M (traced W event) (pyfloat * combination) :=
  match validator self with
  | None => raise UnsetValidatorException
  | Some v =>
      match get_search_space v with
      | Raise e => raise e
      | Ok None => raise MissingSearchSpaceException
      | Ok (Some space) =>
          let combinations := get_dict_values_combinations space in
          do _ <- emit (EStarting (length combinations));
          do calibration_results <- evaluate_loop self combinations [];
          match sorted calibration_results with
          | [] => raise IndexError
          | best :: _ => ret best
          end
      end
  end.

Lemma GridSearchCalibrator_run_unset_validator self s :
  validator self = None ->
  GridSearchCalibrator_run self s = (s, Raise UnsetValidatorException).
Proof. intros Hv. unfold GridSearchCalibrator_run. by rewrite Hv. Qed.

Lemma GridSearchCalibrator_run_missing_search_space self v s :
  validator self = Some v ->
  get_search_space v = Ok None ->
  GridSearchCalibrator_run self s = (s, Raise MissingSearchSpaceException).
Proof. intros Hv Hs. unfold GridSearchCalibrator_run. by rewrite Hv, Hs. Qed.

(** [evaluates self cs w results w']: starting in state [w], the
    combinations [cs] are evaluated one after the other, each once, the
    [i]-th from the state the [(i-1)]-th left; [results] pairs each score
    with its combination and [w'] is the final state. *)
Inductive evaluates (self : Calibrator)
    : list combination -> W -> list (pyfloat * combination) -> W -> Prop :=
| evaluates_nil w : evaluates self [] w [] w
| evaluates_cons c cs w l w1 l1 q results w2 :
    evaluate_combination self c (w, l) = ((w1, l1), Ok q) ->
    evaluates self cs w1 results w2 ->
    evaluates self (c :: cs) w ((q, c) :: results) w2.

Lemma evaluates_combinations self cs w results w' :
  evaluates self cs w results w' -> results.*2 = cs.
Proof. induction 1 as [|c cs w l w1 l1 q results w2 _ _ IH]; [done|].
  by rewrite fmap_cons, IH.
Qed.

(** What an evaluation does to the ambient state and what it returns do
    not depend on the trace. *)
Lemma evaluate_combination_any_trace self c w l w' l' out :
  evaluate_combination self c (w, l) = ((w', l'), out) ->
  forall l0, evaluate_combination self c (w, l0)
             = ((w', l0 ++ [EConsidering c]), out).
Proof.
  unfold evaluate_combination, bind, emit, lift, raise, ret. simpl.
  intros Heval l0. revert Heval.
  destruct (validator self) as [v|]; simpl; [|by inversion 1].
  destruct (get_delta_copy v c w) as [w1 [copy|e]]; simpl;
    [|by inversion 1].
  destruct (validator_args self) as [args|]; simpl; [|by inversion 1].
  destruct (comp_run copy args w1) as [w2 [res|e]]; simpl;
    [|by inversion 1].
  destruct (res !! validate_on self) as [[| | |q|]|];
    try destruct (validate_condition self); simpl; by inversion 1.
Qed.

Lemma evaluate_loop_returns self cs :
  (forall c, c ∈ cs -> forall w l, exists w' l' q,
      evaluate_combination self c (w, l) = ((w', l'), Ok q)) ->
  forall acc w l, exists results w',
    evaluate_loop self cs acc (w, l)
    = ((w', l ++ (EConsidering <$> cs)), Ok (acc ++ results))
    /\ evaluates self cs w results w'.
Proof.
  induction cs as [|c cs IH]; intros Heval acc w l.
  - exists [], w. simpl. unfold ret. rewrite !app_nil_r.
    split; [done|constructor].
  - destruct (Heval c (list_elem_of_here _ _) w l) as (w1 & l1 & q & Hc).
    pose proof (evaluate_combination_trace _ _ _ _ _ _ _ Hc) as ->.
    destruct (IH (fun c' Hin => Heval c' (list_elem_of_further _ _ _ Hin))
                (acc ++ [(q, c)]) w1 (l ++ [EConsidering c]))
      as (results & w' & Hloop & Hev).
    exists ((q, c) :: results), w'. split; [|by econstructor].
    simpl. rewrite (bind_ok _ _ _ _ _ Hc), Hloop.
    by rewrite <- !app_assoc.
Qed.

(** When every evaluation returns a number, the scores collected are
    numbers. *)
Lemma evaluates_numbers self cs w results w' :
  (forall c, c ∈ cs -> forall w l, exists w' l' q,
      evaluate_combination self c (w, l) = ((w', l'), Ok (FNum q))) ->
  evaluates self cs w results w' ->
  Forall (fun pair => is_number pair.1 = true) results.
Proof.
  intros Heval. induction 1 as [|c cs w l w1 l1 q results w2 Hc _ IH];
    [constructor|].
  constructor.
  - destruct (Heval c (list_elem_of_here _ _) w l) as (w1' & l1' & q' & Hc').
    rewrite Hc' in Hc. by injection Hc as _ _ <-.
  - apply IH. intros c' Hin. apply Heval. by right.
Qed.

Lemma sorted_numbers results :
  Forall (fun pair : pyfloat * combination => is_number pair.1 = true) results ->
  sorted results = py_sorted (fun pair => number_of pair.1) results.
Proof.
  intros Hnum. unfold sorted.
  by rewrite (proj2 (forallb_forall _ _))
    by (intros pair Hin; apply (proj1 (Forall_forall _ _) Hnum);
        by apply list_elem_of_In).
Qed.

(** C1 (amended): for a calibrator whose validator exposes a search
    space that is not empty and has non-empty candidate lists, and whose
    every evaluation returns a number (no evaluation raises, no metric is
    [nan]), [run]
    - enumerates the full cartesian product of the candidate lists: the
      combinations are exactly the choices of one candidate per
      parameter, there are as many as the product of the lengths, and
      none is repeated when no candidate list repeats a value;
    - evaluates them one after the other, each once, in enumeration
      order (the trace holds the start line and one line per
      combination, in order; [evaluates] relates the states);
    - returns the (score, combination) pair that comes first after the
      stable ascending sort: the first pair of minimal score. *)
Theorem GridSearchCalibrator_run_spec
    (self : Calibrator) (v : Validator) (space : search_space)
    (w : W) (l : list event) :
  validator self = Some v ->
  get_search_space v = Ok (Some space) ->
  space ≠ ∅ ->
  (forall k vs, space !! k = Some vs -> vs ≠ []) ->
  (forall c, c ∈ get_dict_values_combinations space ->
     forall w0 l0, exists w' l' q,
       evaluate_combination self c (w0, l0) = ((w', l'), Ok (FNum q))) ->
  let combinations := get_dict_values_combinations space in
  (forall c, c ∈ combinations
     <-> dom c = dom space
         /\ forall k vs, space !! k = Some vs ->
              exists x, c !! k = Some x /\ x ∈ vs)
  /\ length combinations = product_of_lengths space
  /\ ((forall k vs, space !! k = Some vs -> NoDup vs) -> NoDup combinations)
  /\ exists results w' best,
       GridSearchCalibrator_run self (w, l)
       = ((w', l ++ EStarting (length combinations)
                  :: (EConsidering <$> combinations)), Ok best)
       /\ evaluates self combinations w results w'
       /\ results.*2 = combinations
       /\ sorted results !! 0 = Some best
       /\ first_minimum fst results best.
Proof.
  intros Hv Hspace Hnonempty Hne Heval combinations.
  split; [intros c; by apply elem_of_get_dict_values_combinations|].
  split; [by apply length_get_dict_values_combinations|].
  split; [apply NoDup_get_dict_values_combinations|].
  assert (forall c, c ∈ combinations -> forall w0 l0, exists w' l' q,
            evaluate_combination self c (w0, l0) = ((w', l'), Ok q)) as Heval'.
  { intros c Hc w0 l0. destruct (Heval c Hc w0 l0) as (w' & l' & q & Hq).
    by eexists _, _, _. }
  destruct (evaluate_loop_returns self combinations Heval' []
              w (l ++ [EStarting (length combinations)]))
    as (results & w' & Hloop & Hev).
  pose proof (evaluates_combinations _ _ _ _ _ Hev) as Hsnd.
  pose proof (evaluates_numbers _ _ _ _ _ Heval Hev) as Hnum.
  pose proof (sorted_numbers _ Hnum) as Hsorted.
  destruct (py_sorted (fun pair => number_of pair.1) results)
    as [|best rest] eqn:Hsort.
  { apply py_sorted_nil_inv in Hsort as ->. simpl in Hsnd.
    pose proof (product_of_lengths_pos space Hne) as Hpos.
    rewrite <- length_get_dict_values_combinations in Hpos by done.
    fold combinations in Hpos. rewrite <- Hsnd in Hpos. simpl in Hpos. lia. }
  exists results, w', best. split; [|split; [done|split; [done|split]]].
  - unfold GridSearchCalibrator_run. rewrite Hv, Hspace.
    fold combinations. unfold bind at 1. unfold emit. simpl.
    unfold bind. rewrite Hloop. simpl. rewrite Hsorted. unfold ret.
    by rewrite <- app_assoc.
  - by rewrite Hsorted.
  - apply first_least_first_minimum; [done|].
    by eapply py_sorted_head_first_least.
Qed.

End Calibration.

(** A concrete calibration: two parameters with 3 and 2 candidates; the
    validator's metric [loss] is the product of the two chosen values and
    the ambient state counts the validator runs. *)
Definition demo_space : search_space :=
  {["lr" := [VInt 1; VInt 2; VInt 3]; "depth" := [VInt 5; VInt 4]]}.

Definition int_of (c : combination) (k : string) : Z :=
  match c !! k with Some (VInt z) => z | _ => 0%Z end.

Definition demo_metric (c : combination) : Qc :=
  Qc_of_Z (int_of c "lr" * int_of c "depth").

Definition demo_validator : Validator (W := nat) :=
  {| get_search_space := Ok (Some demo_space);
     get_delta_copy := fun c w =>
       (w, Ok {| comp_run := fun _ w' =>
                   (S w', Ok {["loss" := VFloat (FNum (demo_metric c))]}) |}) |}.

Definition demo_calibrator (d : ValidateCondition) : Calibrator :=
  {| validator := Some demo_validator; validator_args := Some ∅;
     validate_on := "loss"; validate_condition := d |}.

(** The enumeration follows the sorted names: [depth] before [lr], [lr]
    varying fastest. *)
Example demo_space_enumeration :
  get_dict_values_combinations demo_space
  = [ {["depth" := VInt 5; "lr" := VInt 1]}; {["depth" := VInt 5; "lr" := VInt 2]};
      {["depth" := VInt 5; "lr" := VInt 3]}; {["depth" := VInt 4; "lr" := VInt 1]};
      {["depth" := VInt 4; "lr" := VInt 2]}; {["depth" := VInt 4; "lr" := VInt 3]} ].
Proof. vm_compute. reflexivity. Qed.

Example grid_search_minimize :
  GridSearchCalibrator_run id (demo_calibrator MINIMIZATION) (0, [])
  = ((6, EStarting 6
         :: (EConsidering <$> get_dict_values_combinations demo_space)),
     Ok (FNum (Qc_of_Z 4), {["lr" := VInt 1; "depth" := VInt 4]})).
Proof. vm_compute. reflexivity. Qed.

Example grid_search_maximize :
  (GridSearchCalibrator_run id (demo_calibrator MAXIMIZATION) (0, [])).2
  = Ok (FNum (- Qc_of_Z 15)%Qc, {["lr" := VInt 3; "depth" := VInt 5]}).
Proof. vm_compute. reflexivity. Qed.

(** A validator whose metric [loss] is the integer 1. *)
Definition int_metric_calibrator : Calibrator (W := nat) :=
  {| validator :=
       Some {| get_search_space := Ok None;
               get_delta_copy := fun _ w =>
                 (w, Ok {| comp_run := fun _ w' =>
                             (w', Ok {["loss" := VInt 1]}) |}) |};
     validator_args := Some ∅; validate_on := "loss";
     validate_condition := MINIMIZATION |}.

(** An integer metric is not a float: the evaluation raises. *)
Example evaluate_combination_int_metric :
  evaluate_combination int_metric_calibrator ∅ (0, [])
  = ((0, [EConsidering ∅]), Raise RuntimeError).
Proof. vm_compute. reflexivity. Qed.

(** The values that are real numbers: the floats other than [nan] and
    the integers. *)
Definition is_real_number (v : value) : bool :=
  match v with
  | VFloat (FNum _) | VInt _ => true
  | _ => false
  end.

(** C2 as the specification words it: once the delta copy has run and
    returned its record, the evaluation raises exactly when the monitored
    field is absent or is not a real number. *)
Definition raises_exactly_when_not_a_real_number : Prop :=
  forall (W : Type) (self : Calibrator (W := W)) (v : Validator) (args : run_args)
         (c : combination) (copy : Component) (res : run_results)
         (w w1 w2 : W) (l : list event),
    validator self = Some v ->
    validator_args self = Some args ->
    get_delta_copy v c w = (w1, Ok copy) ->
    comp_run copy args w1 = (w2, Ok res) ->
    ((exists s e, evaluate_combination self c (w, l) = (s, Raise e))
     <-> match res !! validate_on self with
         | None | Some VNone => True
         | Some x => is_real_number x = false
         end).

(** C2 fails on the code as worded: the integer 1 is a real number, and
    a validator that reports it as its metric makes the evaluation
    raise. *)
Lemma evaluate_combination_rejects_integer_metric :
  ~ raises_exactly_when_not_a_real_number.
Proof.
  intros Hclaim.
  destruct (Hclaim nat int_metric_calibrator _ ∅ ∅ _ {["loss" := VInt 1]}
              0 0 0 [] eq_refl eq_refl eq_refl eq_refl) as [Hraises _].
  assert (is_real_number (VInt 1) = false) as Hreal; [|discriminate Hreal].
  apply Hraises. eexists _, _. vm_compute. reflexivity.
Qed.

Lemma evaluate_combination_metric_witness :
  ((exists e, evaluate_combination (demo_calibrator MAXIMIZATION)
                {["lr" := VInt 3; "depth" := VInt 5]} (0, [])
              = ((1, [] ++ [EConsidering {["lr" := VInt 3; "depth" := VInt 5]}]),
                 Raise e))
   <-> ~ exists q, ({["loss" := VFloat (FNum (Qc_of_Z 15))]} : run_results)
                   !! validate_on (demo_calibrator MAXIMIZATION)
                   = Some (VFloat q))
  /\ (forall q, ({["loss" := VFloat (FNum (Qc_of_Z 15))]} : run_results)
                !! validate_on (demo_calibrator MAXIMIZATION)
                = Some (VFloat q) ->
      evaluate_combination (demo_calibrator MAXIMIZATION)
        {["lr" := VInt 3; "depth" := VInt 5]} (0, [])
      = ((1, [] ++ [EConsidering {["lr" := VInt 3; "depth" := VInt 5]}]),
         Ok (match validate_condition (demo_calibrator MAXIMIZATION) with
             | MAXIMIZATION => float_neg q
             | MINIMIZATION => q
             end))).
Proof.
  apply (evaluate_combination_metric (demo_calibrator MAXIMIZATION)
           demo_validator ∅ {["lr" := VInt 3; "depth" := VInt 5]}
           {| comp_run := fun _ w' =>
                (S w', Ok {["loss" := VFloat (FNum (demo_metric
                                      {["lr" := VInt 3; "depth" := VInt 5]}))]}) |}
           {["loss" := VFloat (FNum (Qc_of_Z 15))]} 0 0 1 []);
    vm_compute; reflexivity.
Defined.

Lemma demo_space_nonempty : demo_space ≠ ∅.
Proof.
  intros Heq. apply (f_equal (fun m : search_space => m !! "lr")) in Heq.
  vm_compute in Heq. discriminate.
Defined.

Lemma demo_space_candidates_nonempty :
  forall k vs, demo_space !! k = Some vs -> vs ≠ [].
Proof.
  intros k vs Hk ->. unfold demo_space in Hk.
  apply lookup_insert_Some in Hk as [[_ Hk]|[_ Hk]]; [done|].
  by apply lookup_singleton_Some in Hk as [_ Hk].
Defined.

Lemma demo_validator_always_evaluates d :
  forall c, c ∈ get_dict_values_combinations demo_space ->
    forall (w0 : nat) l0, exists w' l' q,
      evaluate_combination (demo_calibrator d) c (w0, l0)
      = ((w', l'), Ok (FNum q)).
Proof.
  intros c _ w0 l0.
  exists (S w0), (l0 ++ [EConsidering c]),
    (match d with MAXIMIZATION => (- demo_metric c)%Qc
                | MINIMIZATION => demo_metric c end).
  destruct d; reflexivity.
Defined.

Lemma GridSearchCalibrator_run_spec_witness :
  let combinations := get_dict_values_combinations demo_space in
  (forall c, c ∈ combinations
     <-> dom c = dom demo_space
         /\ forall k vs, demo_space !! k = Some vs ->
              exists x, c !! k = Some x /\ x ∈ vs)
  /\ length combinations = product_of_lengths demo_space
  /\ ((forall k vs, demo_space !! k = Some vs -> NoDup vs) -> NoDup combinations)
  /\ exists results w' best,
       GridSearchCalibrator_run id (demo_calibrator MINIMIZATION) (0, [])
       = ((w', [] ++ EStarting (length combinations)
                  :: (EConsidering <$> combinations)), Ok best)
       /\ evaluates (demo_calibrator MINIMIZATION) combinations 0 results w'
       /\ results.*2 = combinations
       /\ sorted id results !! 0 = Some best
       /\ first_minimum fst results best.
Proof.
  apply (GridSearchCalibrator_run_spec id (demo_calibrator MINIMIZATION)
           demo_validator demo_space 0 [] eq_refl eq_refl
           demo_space_nonempty demo_space_candidates_nonempty
           (demo_validator_always_evaluates MINIMIZATION)).
Defined.

(** A validator whose metric [loss] is the integer 1 on every
    combination of the search space above. *)
Definition integer_loss_calibrator : Calibrator (W := nat) :=
  {| validator :=
       Some {| get_search_space := Ok (Some demo_space);
               get_delta_copy := fun _ w =>
                 (w, Ok {| comp_run := fun _ w' =>
                             (S w', Ok {["loss" := VInt 1]}) |}) |};
     validator_args := Some ∅; validate_on := "loss";
     validate_condition := MINIMIZATION |}.

(** C1 as the specification words it: whatever the validator, on a
    search space with non-empty candidate lists the run returns a pair,
    every combination has been evaluated, and the score of the pair is
    minimal among the scores. *)
Definition run_returns_the_minimum_for_every_validator : Prop :=
  forall (W : Type) sort_with_nan (self : Calibrator (W := W)) (v : Validator)
         (space : search_space) (w : W) (l : list event),
    validator self = Some v ->
    get_search_space v = Ok (Some space) ->
    (forall k vs, space !! k = Some vs -> vs ≠ []) ->
    exists results w' l' best,
      GridSearchCalibrator_run sort_with_nan self (w, l) = ((w', l'), Ok best)
      /\ evaluates self (get_dict_values_combinations space) w results w'
      /\ first_minimum fst results best.

(** C1 fails on the code as worded: with a validator whose metric is an
    integer the first evaluation raises, and the run raises with it
    instead of returning a pair. *)
Lemma GridSearchCalibrator_run_raises_on_integer_metric :
  ~ run_returns_the_minimum_for_every_validator.
Proof.
  intros Hclaim.
  destruct (Hclaim nat id integer_loss_calibrator _ demo_space 0 []
              eq_refl eq_refl demo_space_candidates_nonempty)
    as (results & w' & l' & best & Hrun & _).
  vm_compute in Hrun. discriminate.
Qed.

(** The run on the integer metric, and on the empty search space. *)
Example grid_search_integer_metric :
  GridSearchCalibrator_run id integer_loss_calibrator (0, [])
  = ((1, [EStarting 6; EConsidering {["depth" := VInt 5; "lr" := VInt 1]}]),
     Raise RuntimeError).
Proof. vm_compute. reflexivity. Qed.

Example grid_search_empty_space :
  GridSearchCalibrator_run id
    {| validator := Some {| get_search_space := Ok (Some ∅);
                            get_delta_copy := get_delta_copy demo_validator |};
       validator_args := Some ∅; validate_on := "loss";
       validate_condition := MINIMIZATION |} (0, [])
  = ((0, [EStarting 0]), Raise IndexError).
Proof. vm_compute. reflexivity. Qed.

(** *** More on the evaluation and on the grid search *)

Section CalibrationProperties.
Context {W : Type}.
Variable sort_with_nan :
  list (pyfloat * combination) -> list (pyfloat * combination).

(** The score for a metric value: negated under MAXIMIZATION. *)
Definition score_of (d : ValidateCondition) (metric : Qc) : Qc :=
  match d with
  | MAXIMIZATION => (- metric)%Qc
  | MINIMIZATION => metric
  end.

Lemma evaluate_combination_returns (self : Calibrator (W := W)) v args c copy res
    w w1 w2 l q :
  validator self = Some v ->
  validator_args self = Some args ->
  get_delta_copy v c w = (w1, Ok copy) ->
  comp_run copy args w1 = (w2, Ok res) ->
  res !! validate_on self = Some (VFloat (FNum q)) ->
  evaluate_combination self c (w, l)
  = ((w2, l ++ [EConsidering c]),
     Ok (FNum (score_of (validate_condition self) q))).
Proof.
  intros Hv Hargs Hcopy Hrun Hq.
  unfold evaluate_combination, bind, emit, lift, raise, ret. simpl.
  rewrite Hv. simpl. rewrite Hcopy. simpl. rewrite Hargs. simpl.
  rewrite Hrun. simpl. rewrite Hq. by destruct (validate_condition self).
Qed.

(** X8: after [set_validator(validator)] with [validator_args] left at
    its default [None], every evaluation raises TypeError once the delta
    copy is built: the copy is never run. *)
Theorem evaluate_combination_default_validator_args
    (self : Calibrator (W := W)) (v : Validator) (c : combination)
    (copy : Component) (w w1 : W) (l : list event) :
  get_delta_copy v c w = (w1, Ok copy) ->
  evaluate_combination (set_validator self v None) c (w, l)
  = ((w1, l ++ [EConsidering c]), Raise TypeError).
Proof.
  intros Hcopy. unfold evaluate_combination, bind, emit, lift, raise. simpl.
  by rewrite Hcopy.
Qed.

Lemma evaluate_loop_stops (self : Calibrator (W := W)) before w results w1 :
  evaluates self before w results w1 ->
  forall c l1 w2 l2 e after acc l,
    evaluate_combination self c (w1, l1) = ((w2, l2), Raise e) ->
    evaluate_loop self (before ++ c :: after) acc (w, l)
    = ((w2, l ++ (EConsidering <$> before ++ [c])), Raise e).
Proof.
  induction 1 as [w|c0 cs w l0 w1 l1 q results w2 Hc0 _ IH];
    intros c l1' w3 l3 e after acc l Hc.
  - simpl. rewrite (bind_raise _ _ _ _ _
                      (evaluate_combination_any_trace _ _ _ _ _ _ _ Hc l)).
    done.
  - simpl. rewrite (bind_ok _ _ _ _ _
                      (evaluate_combination_any_trace _ _ _ _ _ _ _ Hc0 l)).
    rewrite (IH _ _ _ _ _ after _ _ Hc). by rewrite <- app_assoc.
Qed.

(** X9: the grid search stops at the first evaluation that raises: the
    exception propagates, the combinations enumerated after the failing one
    are never evaluated, and no result is returned for the ones already
    evaluated. *)
Theorem GridSearchCalibrator_run_stops_at_first_failure
    (self : Calibrator (W := W)) (v : Validator) (space : search_space)
    (before after : list combination) (c : combination)
    (results : list (pyfloat * combination))
    (w w1 w2 : W) (l l1 l2 : list event) (e : exn) :
  validator self = Some v ->
  get_search_space v = Ok (Some space) ->
  get_dict_values_combinations space = before ++ c :: after ->
  evaluates self before w results w1 ->
  evaluate_combination self c (w1, l1) = ((w2, l2), Raise e) ->
  GridSearchCalibrator_run sort_with_nan self (w, l)
  = ((w2, l ++ EStarting (length (before ++ c :: after))
             :: (EConsidering <$> before ++ [c])), Raise e).
Proof.
  intros Hv Hspace Hcombos Hbefore Hc.
  unfold GridSearchCalibrator_run. rewrite Hv, Hspace, Hcombos.
  unfold bind at 1. unfold emit. simpl.
  rewrite (bind_raise _ _ _ _ _
             (evaluate_loop_stops _ _ _ _ _ Hbefore _ _ _ _ _ after [] _ Hc)).
  by rewrite <- app_assoc.
Qed.

Lemma combinations_of_empty_candidates entries k :
  (k, []) ∈ entries -> combinations_of entries = [].
Proof.
  induction entries as [|[k' vs] rest IH]; [by intros ?%elem_of_nil|].
  intros [Heq|Hin]%elem_of_cons; simpl.
  - by injection Heq as <- <-.
  - rewrite (IH Hin). clear. induction vs as [|v vs IHvs]; [done|].
    by rewrite bind_cons, IHvs.
Qed.

(** X10: when a parameter of the search space has no candidate there is
    no combination: the grid search logs a total of 0, evaluates nothing and
    raises IndexError on [calibration_results[0]]. *)
Theorem GridSearchCalibrator_run_empty_candidates
    (self : Calibrator (W := W)) (v : Validator) (space : search_space)
    (k : string) (w : W) (l : list event) :
  validator self = Some v ->
  get_search_space v = Ok (Some space) ->
  space !! k = Some [] ->
  GridSearchCalibrator_run sort_with_nan self (w, l)
  = ((w, l ++ [EStarting 0]), Raise IndexError).
Proof.
  intros Hv Hspace Hk. unfold GridSearchCalibrator_run.
  rewrite Hv, Hspace. unfold get_dict_values_combinations.
  rewrite (combinations_of_empty_candidates _ k)
    by by apply elem_of_sorted_entries.
  reflexivity.
Qed.

Lemma evaluates_scores (self : Calibrator (W := W)) v args (metric : combination -> Qc) :
  validator self = Some v ->
  validator_args self = Some args ->
  (forall c w, exists w1 copy w2 res,
      get_delta_copy v c w = (w1, Ok copy)
      /\ comp_run copy args w1 = (w2, Ok res)
      /\ res !! validate_on self = Some (VFloat (FNum (metric c)))) ->
  forall cs w results w',
    evaluates self cs w results w' ->
    results
    = (fun c => (FNum (score_of (validate_condition self) (metric c)), c)) <$> cs.
Proof.
  intros Hv Hargs Hmetric cs w results w'.
  induction 1 as [w|c cs w l w1 l1 q results w2 Hc _ IH]; [done|].
  rewrite fmap_cons, <- IH. do 2 f_equal.
  destruct (Hmetric c w) as (w1' & copy & w2' & res & Hcopy & Hrun & Hres).
  rewrite (evaluate_combination_returns _ _ _ _ _ _ _ _ _ l _
             Hv Hargs Hcopy Hrun Hres) in Hc.
  congruence.
Qed.

(** X11: for a validator whose metric is a number (a float other than
    [nan]) that depends on the combination only, and a search space that
    is not empty and has non-empty candidate lists, the grid search
    returns a combination of the search space with the best metric for
    the configured direction: the smallest under MINIMIZATION, the
    largest under MAXIMIZATION; the score returned with it is the metric
    itself under MINIMIZATION and the negated metric under
    MAXIMIZATION. *)
Theorem GridSearchCalibrator_run_best_for_direction
    (self : Calibrator (W := W)) (v : Validator) (args : run_args)
    (space : search_space) (metric : combination -> Qc)
    (w : W) (l : list event) :
  validator self = Some v ->
  validator_args self = Some args ->
  get_search_space v = Ok (Some space) ->
  space ≠ ∅ ->
  (forall k vs, space !! k = Some vs -> vs ≠ []) ->
  (forall c w, exists w1 copy w2 res,
      get_delta_copy v c w = (w1, Ok copy)
      /\ comp_run copy args w1 = (w2, Ok res)
      /\ res !! validate_on self = Some (VFloat (FNum (metric c)))) ->
  exists s best,
    GridSearchCalibrator_run sort_with_nan self (w, l)
    = (s, Ok (FNum (score_of (validate_condition self) (metric best)), best))
    /\ best ∈ get_dict_values_combinations space
    /\ forall c, c ∈ get_dict_values_combinations space ->
         match validate_condition self with
         | MINIMIZATION => (metric best ≤ metric c)%Qc
         | MAXIMIZATION => (metric c ≤ metric best)%Qc
         end.
Proof.
  intros Hv Hargs Hspace Hnonempty Hne Hmetric.
  assert (forall c, c ∈ get_dict_values_combinations space ->
            forall w0 l0, exists w' l' q,
              evaluate_combination self c (w0, l0) = ((w', l'), Ok q)) as Heval.
  { intros c _ w0 l0.
    destruct (Hmetric c w0) as (w1 & copy & w2 & res & Hcopy & Hrun & Hres).
    eexists _, _, _.
    by apply (evaluate_combination_returns _ _ _ _ _ _ _ _ _ l0 _
                Hv Hargs Hcopy Hrun Hres). }
  destruct (evaluate_loop_returns self _ Heval []
              w (l ++ [EStarting (length (get_dict_values_combinations space))]))
    as (results & w' & Hloop & Hev).
  pose proof (evaluates_scores _ _ _ _ Hv Hargs Hmetric _ _ _ _ Hev) as Hresults.
  assert (Forall (fun pair : pyfloat * combination => is_number pair.1 = true)
            results) as Hnum.
  { rewrite Hresults. apply Forall_fmap, Forall_forall. by intros c _. }
  pose proof (sorted_numbers sort_with_nan _ Hnum) as Hsorted.
  destruct (py_sorted (fun pair : pyfloat * combination => number_of pair.1)
              results) as [|[q best] rest] eqn:Hsort.
  { apply py_sorted_nil_inv in Hsort. rewrite Hsort in Hresults.
    symmetry in Hresults. apply fmap_nil_inv in Hresults.
    pose proof (product_of_lengths_pos space Hne) as Hpos.
    rewrite <- length_get_dict_values_combinations, Hresults in Hpos by done.
    simpl in Hpos. lia. }
  destruct (py_sorted_head_first_least _ _ _ _ Hsort) as (i & Hi & Hle & _).
  assert ((q, best) ∈ results) as Hin by (apply list_elem_of_lookup; eauto).
  rewrite Hresults in Hin.
  apply list_elem_of_fmap in Hin as (best' & [= -> <-] & Hbest).
  eexists _, best. split; [|split; [done|]].
  - unfold GridSearchCalibrator_run. rewrite Hv, Hspace.
    unfold bind at 1. unfold emit. simpl.
    unfold bind. rewrite Hloop. simpl. rewrite Hsorted. reflexivity.
  - intros c Hc.
    assert ((FNum (score_of (validate_condition self) (metric c)), c) ∈ results)
      as Hcin.
    { rewrite Hresults.
      by apply (list_elem_of_fmap_2'
                  (fun c => (FNum (score_of (validate_condition self) (metric c)), c))
                  _ c). }
    apply list_elem_of_lookup in Hcin as [j Hj].
    specialize (Hle j _ Hj). simpl in Hle.
    destruct (validate_condition self); simpl in Hle; [|done].
    by apply Qcopp_le_compat in Hle; rewrite !Qcopp_involutive in Hle.
Qed.

End CalibrationProperties.

(** A validator that runs its copy only for [lr] other than 2. *)
Definition picky_validator : Validator (W := nat) :=
  {| get_search_space := Ok (Some demo_space);
     get_delta_copy := fun c w =>
       (w, Ok {| comp_run := fun _ w' =>
                   if decide (int_of c "lr" = 2%Z)
                   then (w', Raise (UserError "diverged"))
                   else (S w', Ok {["loss" := VFloat (FNum (demo_metric c))]}) |}) |}.

Definition picky_calibrator : Calibrator :=
  {| validator := Some picky_validator; validator_args := Some ∅;
     validate_on := "loss"; validate_condition := MINIMIZATION |}.

Lemma evaluate_combination_default_validator_args_witness :
  evaluate_combination
    (set_validator (demo_calibrator MINIMIZATION) demo_validator None) ∅ (0, [])
  = ((0, [] ++ [EConsidering ∅]), Raise TypeError).
Proof.
  apply (evaluate_combination_default_validator_args
           (demo_calibrator MINIMIZATION) demo_validator ∅
           {| comp_run := fun _ w' =>
                (S w', Ok {["loss" := VFloat (FNum (demo_metric ∅))]}) |} 0 0 []).
  reflexivity.
Defined.

Lemma GridSearchCalibrator_run_stops_at_first_failure_witness :
  GridSearchCalibrator_run id picky_calibrator (0, [])
  = ((1, [] ++ EStarting
                 (length (take 1 (get_dict_values_combinations demo_space)
                          ++ {["lr" := VInt 2; "depth" := VInt 5]}
                             :: drop 2 (get_dict_values_combinations demo_space)))
             :: (EConsidering <$> take 1 (get_dict_values_combinations demo_space)
                                  ++ [{["lr" := VInt 2; "depth" := VInt 5]}])),
     Raise (UserError "diverged")).
Proof.
  apply (GridSearchCalibrator_run_stops_at_first_failure id picky_calibrator
           picky_validator demo_space
           (take 1 (get_dict_values_combinations demo_space))
           (drop 2 (get_dict_values_combinations demo_space))
           {["lr" := VInt 2; "depth" := VInt 5]}
           [(FNum (demo_metric {["lr" := VInt 1; "depth" := VInt 5]}),
             {["lr" := VInt 1; "depth" := VInt 5]})]
           0 1 1 [] [] [EConsidering {["lr" := VInt 2; "depth" := VInt 5]}]
           (UserError "diverged")).
  - reflexivity.
  - reflexivity.
  - vm_compute. reflexivity.
  - change (take 1 (get_dict_values_combinations demo_space))
      with [({["lr" := VInt 1; "depth" := VInt 5]} : combination)].
    apply (evaluates_cons _ _ _ 0 [] 1
             [EConsidering {["lr" := VInt 1; "depth" := VInt 5]}]);
      [vm_compute; reflexivity|].
    apply evaluates_nil.
  - vm_compute. reflexivity.
Defined.

(** A search space whose parameter [depth] has no candidate. *)
Definition no_depth_validator : Validator (W := nat) :=
  {| get_search_space := Ok (Some {["lr" := [VInt 1]; "depth" := []]});
     get_delta_copy := get_delta_copy demo_validator |}.

Definition no_depth_calibrator : Calibrator :=
  {| validator := Some no_depth_validator; validator_args := Some ∅;
     validate_on := "loss"; validate_condition := MINIMIZATION |}.

Lemma GridSearchCalibrator_run_empty_candidates_witness :
  GridSearchCalibrator_run id no_depth_calibrator (0, [])
  = ((0, [] ++ [EStarting 0]), Raise IndexError).
Proof.
  apply (GridSearchCalibrator_run_empty_candidates id no_depth_calibrator
           no_depth_validator {["lr" := [VInt 1]; "depth" := []]} "depth" 0 []);
    vm_compute; reflexivity.
Defined.

Lemma GridSearchCalibrator_run_best_for_direction_witness :
  exists s best,
    GridSearchCalibrator_run id (demo_calibrator MAXIMIZATION) (0, [])
    = (s, Ok (FNum (score_of (validate_condition (demo_calibrator MAXIMIZATION))
                      (demo_metric best)), best))
    /\ best ∈ get_dict_values_combinations demo_space
    /\ forall c, c ∈ get_dict_values_combinations demo_space ->
         match validate_condition (demo_calibrator MAXIMIZATION) with
         | MINIMIZATION => (demo_metric best ≤ demo_metric c)%Qc
         | MAXIMIZATION => (demo_metric c ≤ demo_metric best)%Qc
         end.
Proof.
  apply (GridSearchCalibrator_run_best_for_direction id
           (demo_calibrator MAXIMIZATION) demo_validator ∅ demo_space
           demo_metric 0 [] eq_refl eq_refl eq_refl
           demo_space_nonempty demo_space_candidates_nonempty).
  intros c w.
  exists w, {| comp_run := fun _ w' =>
                 (S w', Ok {["loss" := VFloat (FNum (demo_metric c))]}) |},
    (S w), {["loss" := VFloat (FNum (demo_metric c))]}.
  repeat split; reflexivity.
Defined.

End Calibrator.

(** ** The configuration pattern of the core library *)
Module Configuration.

(** A registration key: name, tags, namespace. *)
Record RegistrationKey := {
  rk_name : string;
  rk_tags : gset string;
  rk_namespace : string
}.

#[global] Instance RegistrationKey_eq_dec : EqDecision RegistrationKey.
Proof. solve_decision. Defined.

#[global] Instance RegistrationKey_countable : Countable RegistrationKey.
Proof.
  refine (inj_countable'
    (fun k => (rk_name k, rk_tags k, rk_namespace k))
    (fun t => {| rk_name := t.1.1; rk_tags := t.1.2; rk_namespace := t.2 |}) _).
  by intros [].
Defined.

(** The values parameters hold in the embedded configurations. *)
Inductive cvalue :=
| CNone
| CBool (b : bool)
| CInt (z : Z)
| CFloat (q : Qc)
| CStr (s : string)
| CKey (k : RegistrationKey)
| CNames (l : list string)
| CSpace (space : gmap string (list value)).

(** A parameter, with the flags the embedded code sets and reads. *)
Record Param := {
  p_name : string;
  p_value : cvalue;
  p_tags : gset string;
  p_is_required : bool;
  p_is_registration : bool;
  p_is_calibration : bool
}.

Definition param (name : string) (v : cvalue) : Param :=
  {| p_name := name; p_value := v; p_tags := ∅; p_is_required := false;
     p_is_registration := false; p_is_calibration := false |}.

Definition with_value (v : cvalue) (p : Param) : Param :=
  {| p_name := p_name p; p_value := v; p_tags := p_tags p;
     p_is_required := p_is_required p;
     p_is_registration := p_is_registration p;
     p_is_calibration := p_is_calibration p |}.

(** A configuration: its parameters in the order they were added (a
    Python dict keeps insertion order) and its named conditions, each a
    function of the parameters that returns a truth value or raises. *)
Record Configuration := {
  fields : list Param;
  conditions : list (string * (list Param -> result bool))
}.

Definition empty_config : Configuration := {| fields := []; conditions := [] |}.

Fixpoint lookup_field (name : string) (ps : list Param) : option Param :=
  match ps with
  | [] => None
  | p :: ps' => if decide (p_name p = name) then Some p else lookup_field name ps'
  end.

(** [name in config] *)
Definition has_field (name : string) (cfg : Configuration) : bool :=
  bool_decide (is_Some (lookup_field name (fields cfg))).

(** [config.name]: the value of the parameter. *)
Definition attribute (name : string) (cfg : Configuration) : option cvalue :=
  p_value <$> lookup_field name (fields cfg).

Fixpoint set_field (p : Param) (ps : list Param) : list Param :=
  match ps with
  | [] => [p]
  | p' :: ps' =>
      if decide (p_name p' = p_name p) then p :: ps' else p' :: set_field p ps'
  end.

(** [conditions[name] = condition] *)
Fixpoint set_condition (name : string) (condition : list Param -> result bool)
    (cs : list (string * (list Param -> result bool)))
    : list (string * (list Param -> result bool)) :=
  match cs with
  | [] => [(name, condition)]
  | c :: cs' =>
      if decide (c.1 = name) then (name, condition) :: cs'
      else c :: set_condition name condition cs'
  end.


(** The condition a required parameter comes with: its value is not
    [None]. *)
Definition is_required_condition (name : string) (parameters : list Param)
    : result bool :=
  match lookup_field name parameters with
  | Some p => Ok (match p_value p with CNone => false | _ => true end)
  | None => Raise KeyError
  end.

(** Modelled from the spec: [add_short] of the core library, "short-form
    field declaration", for a name the configuration does not have yet:
    the parameter is stored under its name, after the others; a required
    parameter ("requiredness flag") adds the condition
    [<name>_is_required].  Adding a name the configuration has already is
    left open by the spec ("undefined behavior"); nothing below relies on
    what the definition does then. *)
Definition add_short (p : Param) (cfg : Configuration) : Configuration :=
  {| fields := set_field p (fields cfg);
     conditions :=
       if p_is_required p
       then set_condition (p_name p +:+ "_is_required")
              (is_required_condition (p_name p)) (conditions cfg)
       else conditions cfg |}.

(** [config.name = v] on an existing parameter. *)
Definition set_value (name : string) (v : cvalue) (cfg : Configuration)
    : Configuration :=
  {| fields := (fun p => if decide (p_name p = name) then with_value v p else p)
                 <$> fields cfg;
     conditions := conditions cfg |}.




Lemma lookup_set_field_eq p ps : lookup_field (p_name p) (set_field p ps) = Some p.
Proof.
  induction ps as [|p' ps IH]; simpl.
  - by rewrite decide_True.
  - destruct (decide (p_name p' = p_name p)) as [Heq|Hne]; simpl.
    + by rewrite decide_True.
    + by rewrite decide_False.
Qed.

Lemma lookup_set_field_ne p ps name :
  p_name p ≠ name -> lookup_field name (set_field p ps) = lookup_field name ps.
Proof.
  intros Hne. induction ps as [|p' ps IH]; simpl.
  - by rewrite decide_False.
  - destruct (decide (p_name p' = p_name p)) as [Heq|Hne']; simpl.
    + rewrite decide_False by done. rewrite decide_False by congruence. done.
    + destruct (decide (p_name p' = name)); [done|]. apply IH.
Qed.

End Configuration.

(** ** configurations/calibrator.py *)
Module CalibratorConfig.
Import Configuration.















(** *** TunableConfiguration *)

(** [TunableConfiguration.get_default]: the parent's default plus the
    parameter [calibration_config], a registration flagged as calibration,
    without a value. *)
Definition TunableConfiguration_get_default (parent_default : Configuration)
    : Configuration :=
  add_short {| p_name := "calibration_config"; p_value := CNone; p_tags := ∅;
               p_is_required := false; p_is_registration := true;
               p_is_calibration := true |} parent_default.

(** A registered configuration class: whether it is a subclass of
    [TunableConfiguration], and what its [get_default()] returns. *)
Record ConfigClass := {
  is_tunable : bool;
  get_default : Configuration
}.

Abbreviation Registry := (gmap RegistrationKey ConfigClass).

(** Modelled from the spec:
    [Registry.retrieve_configurations_from_key(key, exact_match=True).class_type]
    of the core library; a value that is no registered key is an error. *)
Definition retrieve_configurations_from_key (registry : Registry) (key : cvalue)
    : result ConfigClass :=
  match key with
  | CKey k =>
      match registry !! k with
      | Some cls => Ok cls
      | None => Raise NotRegisteredException
      end
  | _ => Raise NotRegisteredException
  end.

(** [f'{parent_key}.{key}' if parent_key is not None else key] *)
Definition dotted (parent_key : option string) (key : string) : string :=
  match parent_key with
  | Some parent => parent +:+ "." +:+ key
  | None => key
  end.

#[global] Instance dotted_inj parent_key : Inj (=) (=) (dotted parent_key).
Proof.
  intros a b Heq. destruct parent_key as [parent|]; [|done]. simpl in Heq.
  apply string_app_cancel in Heq. by apply (string_app_cancel ".") in Heq.
Qed.

(** [for x in xs: acc = f(acc, x)], stopping at the first raise. *)
Fixpoint fold_result {A B} (f : B -> A -> result B) (acc : B) (xs : list A)
    : result B :=
  match xs with
  | [] => Ok acc
  | x :: xs' =>
      match f acc x with
      | Ok acc' => fold_result f acc' xs'
      | Raise e => Raise e
      end
  end.

(** The children of a default configuration: its registration parameters
    that are not flagged as calibration, in declaration order. *)
Definition children_of (default_config : Configuration) : list Param :=
  List.filter (fun p => p_is_registration p && negb (p_is_calibration p))
    (fields default_config).

(** The body of the loop over the children in [get_search_space]:
    resolve the child's class, require it to be tunable, recurse with the
    prefix extended by the child's name.  [recursive_call] is
    [child_config_class.get_search_space]. *)
Definition recurse_into
    (recursive_call : ConfigClass -> gmap string (list value) -> option string
                      -> result (gmap string (list value)))
    (registry : Registry) (parent_key : option string)
    (buffer : gmap string (list value)) (child : Param)
    : result (gmap string (list value)) :=
  match retrieve_configurations_from_key registry (p_value child) with
  | Raise e => Raise e
  | Ok child_config_class =>
      if is_tunable child_config_class
      then recursive_call child_config_class buffer
             (Some (dotted parent_key (p_name child)))
      else Raise NonTunableConfigurationException
  end.

(** [TunableConfiguration.get_search_space(buffer, parent_key)] on the
    class [cls].  The recursion follows registry keys, so it carries a
    bound [fuel] on the nesting depth, standing for Python's recursion
    limit. *)
Fixpoint get_search_space (fuel : nat) (registry : Registry) (cls : ConfigClass)
    (buffer : gmap string (list value)) (parent_key : option string)
    : result (gmap string (list value)) :=
  match fuel with
  | 0 => Raise RecursionError
  | S fuel' =>
      let default_config := get_default cls in
      match attribute "calibration_config" default_config with
      | None => Raise AttributeError
      | Some CNone => Raise UnsetCalibrationConfigurationException
      | Some calibration_config =>
          match fold_result
                  (recurse_into (get_search_space fuel' registry) registry parent_key)
                  buffer (children_of default_config) with
          | Raise e => Raise e
          | Ok buffer =>
              match retrieve_configurations_from_key registry calibration_config with
              | Raise e => Raise e
              | Ok calibration_config_class =>
                  match attribute "search_space"
                          (get_default calibration_config_class) with
                  | Some (CSpace space) =>
                      Ok (kmap (dotted parent_key) space ∪ buffer)
                  | _ => Raise AttributeError
                  end
              end
          end
      end
  end.

(** *** The nesting of tunable configurations, as the spec describes it *)

(** A tunable configuration seen as a tree: its own search-space entries
    (those of its [calibration_config]) and, per child field, the tree of
    the tunable configuration the field refers to. *)
#[warnings="-register-all"]
Inductive tunable_tree :=
| TNode (own : gmap string (list value)) (children : list (string * tunable_tree)).

Definition own_entries (t : tunable_tree) : gmap string (list value) :=
  match t with TNode own _ => own end.

Definition subtrees (t : tunable_tree) : list (string * tunable_tree) :=
  match t with TNode _ children => children end.

Fixpoint tree_depth (t : tunable_tree) : nat :=
  match t with
  | TNode _ children =>
      S ((fix go (cs : list (string * tunable_tree)) : nat :=
            match cs with
            | [] => 0
            | c :: cs' => Nat.max (tree_depth c.2) (go cs')
            end) children)
  end.

(** The flattened search space, in the spec's words: recurse into every
    child with the prefix extended by the field name, then merge in the
    configuration's own entries at the current prefix; a later entry
    overwrites an earlier one of the same dotted key. *)
Fixpoint flat_search_space (prefix : option string) (t : tunable_tree)
    : gmap string (list value) :=
  match t with
  | TNode own children =>
      kmap (dotted prefix) own
      ∪ (fix go (cs : list (string * tunable_tree)) : gmap string (list value) :=
           match cs with
           | [] => ∅
           | c :: cs' => go cs' ∪ flat_search_space (Some (dotted prefix c.1)) c.2
           end) children
  end.

(** Every configuration of the nesting with the prefix it is reached
    under: the dot-joined field names leading to it. *)
Fixpoint nodes (prefix : option string) (t : tunable_tree)
    : list (option string * gmap string (list value)) :=
  match t with
  | TNode own children =>
      (prefix, own)
      :: (fix go (cs : list (string * tunable_tree)) :=
            match cs with
            | [] => []
            | c :: cs' => nodes (Some (dotted prefix c.1)) c.2 ++ go cs'
            end) children
  end.

(** [unfolds registry cls t]: the class [cls] has its calibration config
    set to a registered configuration whose search space is the root's own
    entries, and its children are, field by field, registered tunable
    classes that unfold to the subtrees. *)
Fixpoint unfolds (registry : Registry) (cls : ConfigClass) (t : tunable_tree)
    {struct t} : Prop :=
  match t with
  | TNode own children =>
      (exists k cal,
         attribute "calibration_config" (get_default cls) = Some (CKey k)
         /\ registry !! k = Some cal
         /\ attribute "search_space" (get_default cal) = Some (CSpace own))
      /\ (fix go (ps : list Param) (cs : list (string * tunable_tree))
              {struct cs} : Prop :=
            match cs, ps with
            | [], [] => True
            | c :: cs', p :: ps' =>
                (p_name p = c.1
                 /\ exists k child,
                      p_value p = CKey k
                      /\ registry !! k = Some child
                      /\ is_tunable child = true
                      /\ unfolds registry child c.2)
                /\ go ps' cs'
            | _, _ => False
            end) (children_of (get_default cls)) children
  end.

(** The nested recursions, named. *)
Definition children_depth (cs : list (string * tunable_tree)) : nat :=
  foldr (fun c n => Nat.max (tree_depth c.2) n) 0 cs.

Definition flat_children (prefix : option string)
    (cs : list (string * tunable_tree)) : gmap string (list value) :=
  foldr (fun c acc => acc ∪ flat_search_space (Some (dotted prefix c.1)) c.2) ∅ cs.

Definition nodes_children (prefix : option string)
    (cs : list (string * tunable_tree)) :=
  foldr (fun c acc => nodes (Some (dotted prefix c.1)) c.2 ++ acc) [] cs.

Fixpoint unfolds_children (registry : Registry) (ps : list Param)
    (cs : list (string * tunable_tree)) : Prop :=
  match cs, ps with
  | [], [] => True
  | c :: cs', p :: ps' =>
      (p_name p = c.1
       /\ exists k child,
            p_value p = CKey k
            /\ registry !! k = Some child
            /\ is_tunable child = true
            /\ unfolds registry child c.2)
      /\ unfolds_children registry ps' cs'
  | _, _ => False
  end.

Lemma tree_depth_eq own cs : tree_depth (TNode own cs) = S (children_depth cs).
Proof. reflexivity. Qed.

Lemma flat_search_space_eq prefix own cs :
  flat_search_space prefix (TNode own cs)
  = kmap (dotted prefix) own ∪ flat_children prefix cs.
Proof. reflexivity. Qed.

Lemma nodes_eq prefix own cs :
  nodes prefix (TNode own cs) = (prefix, own) :: nodes_children prefix cs.
Proof. reflexivity. Qed.

Lemma unfolds_eq registry cls own cs :
  unfolds registry cls (TNode own cs)
  <-> (exists k cal,
         attribute "calibration_config" (get_default cls) = Some (CKey k)
         /\ registry !! k = Some cal
         /\ attribute "search_space" (get_default cal) = Some (CSpace own))
      /\ unfolds_children registry (children_of (get_default cls)) cs.
Proof.
  simpl. generalize (children_of (get_default cls)) as ps.
  induction cs as [|c cs IH]; intros ps; destruct ps as [|p ps]; simpl;
    try tauto.
  specialize (IH ps). tauto.
Qed.

Lemma tunable_tree_induction (P : tunable_tree -> Prop) :
  (forall own cs, Forall (fun c => P c.2) cs -> P (TNode own cs)) ->
  forall t, P t.
Proof.
  intros Hnode. fix IH 1. intros [own cs]. apply Hnode.
  induction cs as [|c cs IHcs]; constructor; [apply IH|exact IHcs].
Qed.

Lemma fold_children_flat registry fuel prefix cs :
  Forall (fun c : string * tunable_tree =>
            forall cls buffer prefix fuel,
              unfolds registry cls c.2 -> tree_depth c.2 <= fuel ->
              get_search_space fuel registry cls buffer prefix
              = Ok (flat_search_space prefix c.2 ∪ buffer)) cs ->
  forall ps buffer,
    unfolds_children registry ps cs ->
    children_depth cs <= fuel ->
    fold_result (recurse_into (get_search_space fuel registry) registry prefix)
      buffer ps
    = Ok (flat_children prefix cs ∪ buffer).
Proof.
  induction 1 as [|c cs Hc _ IH]; intros ps buffer Hunf Hdepth;
    destruct ps as [|p ps]; simpl in Hunf; try done.
  - simpl. by rewrite (left_id_L ∅ (∪)).
  - destruct Hunf as [(Hname & k & child & Hv & Hreg & Htun & Hchild) Hrest].
    simpl in Hdepth. simpl fold_result. unfold recurse_into at 1.
    rewrite Hv. simpl retrieve_configurations_from_key. rewrite Hreg, Htun, Hname.
    rewrite (Hc child buffer _ fuel Hchild) by lia.
    rewrite (IH ps _ Hrest) by lia.
    simpl flat_children. by rewrite (assoc_L (∪)).
Qed.

(** The code computes the flattened search space of the nesting, merged
    over the incoming buffer, whenever the fuel covers the nesting depth. *)
Lemma get_search_space_flat registry t :
  forall cls buffer prefix fuel,
    unfolds registry cls t -> tree_depth t <= fuel ->
    get_search_space fuel registry cls buffer prefix
    = Ok (flat_search_space prefix t ∪ buffer).
Proof.
  induction t as [own cs IH] using tunable_tree_induction.
  intros cls buffer prefix fuel Hunf Hdepth.
  apply unfolds_eq in Hunf as [(k & cal & Hcal & Hreg & Hspace) Hchildren].
  rewrite tree_depth_eq in Hdepth. destruct fuel as [|fuel]; [lia|].
  rewrite flat_search_space_eq.
  pose proof (fold_children_flat registry fuel prefix cs IH _ buffer Hchildren
                ltac:(lia)) as Hfold.
  simpl get_search_space. rewrite Hcal, Hfold.
  simpl retrieve_configurations_from_key. rewrite Hreg, Hspace.
  by rewrite (assoc_L (∪)).
Qed.

(** The root's own entries are merged last: they are in the result. *)
Lemma flat_search_space_own prefix t k v :
  own_entries t !! k = Some v ->
  flat_search_space prefix t !! dotted prefix k = Some v.
Proof.
  destruct t as [own cs]. simpl own_entries. intros Hk.
  rewrite flat_search_space_eq. apply lookup_union_Some_l.
  by rewrite (lookup_kmap (dotted prefix)).
Qed.

Lemma elem_of_nodes_children prefix cs n :
  n ∈ nodes_children prefix cs
  <-> exists c, c ∈ cs /\ n ∈ nodes (Some (dotted prefix c.1)) c.2.
Proof.
  induction cs as [|c cs IH]; simpl.
  - split; [by intros ?%elem_of_nil|]. by intros (c & ?%elem_of_nil & _).
  - rewrite elem_of_app, IH. split.
    + intros [Hn|(c' & Hc' & Hn)]; [exists c|exists c'];
        (split; [|done]); [by left|by right].
    + intros (c' & Hc' & Hn). apply elem_of_cons in Hc' as [->|Hc'];
        [by left|right; by exists c'].
Qed.

(** Every entry of the flattened space is the entry of some configuration
    of the nesting, under that configuration's dotted prefix. *)
Lemma flat_search_space_lookup prefix t key v :
  flat_search_space prefix t !! key = Some v ->
  exists p own k,
    (p, own) ∈ nodes prefix t /\ own !! k = Some v /\ key = dotted p k.
Proof.
  revert prefix. induction t as [own cs IH] using tunable_tree_induction.
  intros prefix. rewrite flat_search_space_eq, nodes_eq.
  intros [Hown|[_ Hcs]]%lookup_union_Some_raw.
  - apply lookup_kmap_Some in Hown as (k & -> & Hk); [|apply _].
    exists prefix, own, k. split; [by left|done].
  - assert (exists c, c ∈ cs
               /\ flat_search_space (Some (dotted prefix c.1)) c.2 !! key = Some v)
      as (c & Hc & Hkey).
    { clear IH. induction cs as [|c cs IHcs]; simpl in Hcs; [done|].
      apply lookup_union_Some_raw in Hcs as [Hrest|[_ Hc]].
      - destruct (IHcs Hrest) as (c' & Hc' & Hkey). exists c'.
        split; [by right|done].
      - exists c. split; [by left|done]. }
    rewrite Forall_forall in IH.
    destruct (IH c Hc _ Hkey) as (p & own' & k & Hn & Hk & ->).
    exists p, own', k. split; [|done]. right.
    apply elem_of_nodes_children. by exists c.
Qed.

(** Every entry of every configuration of the nesting has its dotted key
    in the flattened space. *)
Lemma flat_search_space_dom prefix t p own k :
  (p, own) ∈ nodes prefix t -> k ∈ dom own ->
  dotted p k ∈ dom (flat_search_space prefix t).
Proof.
  revert prefix. induction t as [own' cs IH] using tunable_tree_induction.
  intros prefix. rewrite flat_search_space_eq, nodes_eq, dom_union_L.
  intros Hn Hk. apply elem_of_union.
  apply elem_of_cons in Hn as [Heq|Hn].
  - injection Heq as -> ->. left. apply elem_of_dom.
    rewrite (lookup_kmap (dotted prefix)). by apply elem_of_dom.
  - right. apply elem_of_nodes_children in Hn as (c & Hc & Hn).
    rewrite Forall_forall in IH. specialize (IH c Hc _ Hn Hk).
    clear Hn. induction cs as [|c' cs IHcs]; [by apply elem_of_nil in Hc|].
    simpl. rewrite dom_union_L. apply elem_of_union.
    apply elem_of_cons in Hc as [->|Hc]; [by right|left]. by apply IHcs.
Qed.

(** C6: for a tunable configuration whose nesting of tunable children
    unfolds to the tree [t] (its [calibration_config] and that of every
    nested child is set and registered, and every child is tunable),
    [get_search_space] returns, once the recursion bound covers the depth
    of the nesting, the flat mapping that
    - is merged over the incoming buffer child by child and then with the
      configuration's own entries, a later entry overwriting an earlier
      one of the same dotted key ([flat_search_space]);
    - holds the configuration's own entries at its own prefix level;
    - has, for every entry of every nested configuration, the key made
      of the dot-joined field names leading to that configuration and the
      entry's key; and every entry it has is such an entry;
    - for a root with one entry [k1] and one child field [f] whose
      configuration has one entry [k2], has exactly the keys [k1] and
      [f.k2] (two keys when these differ). *)
Theorem get_search_space_spec (registry : Registry) (cls : ConfigClass)
    (t : tunable_tree) :
  unfolds registry cls t ->
  (forall buffer prefix fuel, tree_depth t <= fuel ->
     get_search_space fuel registry cls buffer prefix
     = Ok (flat_search_space prefix t ∪ buffer))
  /\ exists m,
       (forall fuel, tree_depth t <= fuel ->
          get_search_space fuel registry cls ∅ None = Ok m)
       /\ (forall k v, own_entries t !! k = Some v -> m !! k = Some v)
       /\ (forall p own k, (p, own) ∈ nodes None t -> k ∈ dom own ->
             dotted p k ∈ dom m)
       /\ (forall key v, m !! key = Some v ->
             exists p own k,
               (p, own) ∈ nodes None t /\ own !! k = Some v /\ key = dotted p k)
       /\ (forall f k1 v1 k2 v2,
             t = TNode {[k1 := v1]} [(f, TNode {[k2 := v2]} [])] ->
             dom m = {[k1; f +:+ "." +:+ k2]}
             /\ m !! k1 = Some v1
             /\ (k1 ≠ f +:+ "." +:+ k2 ->
                 m !! (f +:+ "." +:+ k2) = Some v2 /\ size m = 2)).
Proof.
  intros Hunf. split.
  { intros buffer prefix fuel Hfuel. by apply get_search_space_flat. }
  exists (flat_search_space None t). split; [|split; [|split; [|split]]].
  - intros fuel Hfuel. rewrite (get_search_space_flat _ _ _ _ _ _ Hunf Hfuel).
    by rewrite (right_id_L ∅ (∪)).
  - intros k v Hk. by apply (flat_search_space_own None).
  - intros p own k. apply flat_search_space_dom.
  - intros key v. apply flat_search_space_lookup.
  - intros f k1 v1 k2 v2 ->.
    assert (flat_search_space None (TNode {[k1 := v1]} [(f, TNode {[k2 := v2]} [])])
            = <[k1 := v1]> {[f +:+ "." +:+ k2 := v2]}) as ->.
    { rewrite !flat_search_space_eq. simpl flat_children.
      rewrite !kmap_singleton, !(right_id_L ∅ (∪)), (left_id_L ∅ (∪)).
      simpl dotted. by rewrite insert_union_singleton_l. }
    split; [|split].
    + rewrite dom_insert_L, dom_singleton_L. set_solver.
    + by rewrite lookup_insert_eq.
    + intros Hne. split.
      * rewrite lookup_insert_ne by done. by rewrite lookup_singleton_eq.
      * rewrite map_size_insert_None; [by rewrite map_size_singleton|].
        by rewrite lookup_singleton_ne.
Qed.

(** A two-level nesting: a root configuration with one search-space
    entry [lr] and one child field [model], whose tunable configuration has
    one entry [units]. *)
Definition key_of (name : string) : RegistrationKey :=
  {| rk_name := name; rk_tags := ∅; rk_namespace := "demo" |}.

Definition calibration_class (space : gmap string (list value)) : ConfigClass :=
  {| is_tunable := false;
     get_default := add_short (param "search_space" (CSpace space)) empty_config |}.

Definition child_class : ConfigClass :=
  {| is_tunable := true;
     get_default :=
       set_value "calibration_config" (CKey (key_of "child_calibration"))
         (TunableConfiguration_get_default empty_config) |}.

Definition root_class : ConfigClass :=
  {| is_tunable := true;
     get_default :=
       set_value "calibration_config" (CKey (key_of "root_calibration"))
         (add_short {| p_name := "model"; p_value := CKey (key_of "child");
                       p_tags := ∅; p_is_required := false;
                       p_is_registration := true; p_is_calibration := false |}
            (TunableConfiguration_get_default empty_config)) |}.

Definition demo_registry : Registry :=
  {[ key_of "root" := root_class;
     key_of "child" := child_class;
     key_of "root_calibration" := calibration_class {["lr" := [VInt 1; VInt 2]]};
     key_of "child_calibration" := calibration_class {["units" := [VInt 8]]} ]}.

Definition demo_tree : tunable_tree :=
  TNode {["lr" := [VInt 1; VInt 2]]} [("model", TNode {["units" := [VInt 8]]} [])].

Example get_search_space_two_levels :
  get_search_space 2 demo_registry root_class ∅ None
  = Ok {["lr" := [VInt 1; VInt 2]; "model.units" := [VInt 8]]}.
Proof. vm_compute. reflexivity. Qed.

(** Without a calibration config the search space cannot be computed. *)
Example get_search_space_unset :
  get_search_space 2 demo_registry
    {| is_tunable := true;
       get_default := TunableConfiguration_get_default empty_config |} ∅ None
  = Raise UnsetCalibrationConfigurationException.
Proof. vm_compute. reflexivity. Qed.

Lemma demo_tree_unfolds : unfolds demo_registry root_class demo_tree.
Proof.
  apply unfolds_eq. split.
  - exists (key_of "root_calibration"),
      (calibration_class {["lr" := [VInt 1; VInt 2]]}).
    repeat split; vm_compute; reflexivity.
  - split; [|exact I]. split; [reflexivity|].
    exists (key_of "child"), child_class.
    split; [reflexivity|]. split; [vm_compute; reflexivity|].
    split; [reflexivity|]. apply unfolds_eq. split; [|exact I].
    exists (key_of "child_calibration"), (calibration_class {["units" := [VInt 8]]}).
    repeat split; vm_compute; reflexivity.
Defined.

Lemma get_search_space_spec_witness :
  unfolds demo_registry root_class demo_tree
  /\ exists m,
       (forall fuel, tree_depth demo_tree <= fuel ->
          get_search_space fuel demo_registry root_class ∅ None = Ok m)
       /\ dom m = {["lr"; "model.units"]}
       /\ size m = 2.
Proof.
  split; [exact demo_tree_unfolds|].
  destruct (get_search_space_spec demo_registry root_class demo_tree
              demo_tree_unfolds) as [_ (m & Hrun & _ & _ & _ & Htwo)].
  destruct (Htwo "model" "lr" [VInt 1; VInt 2] "units" [VInt 8] eq_refl)
    as (Hdom & _ & Hsize).
  exists m. split; [exact Hrun|]. split; [exact Hdom|].
  apply Hsize. discriminate.
Defined.

(** *** More on the search space of nested configurations *)

Lemma fold_result_app {A B} (f : B -> A -> result B) (acc : B) (xs ys : list A) :
  fold_result f acc (xs ++ ys)
  = match fold_result f acc xs with
    | Ok acc' => fold_result f acc' ys
    | Raise e => Raise e
    end.
Proof.
  revert acc. induction xs as [|x xs IH]; intros acc; simpl; [done|].
  destruct (f acc x); [apply IH|done].
Qed.

(** X12: a child that is registered but is not a tunable configuration
    makes [get_search_space] raise NonTunableConfigurationException, once
    the children declared before it have been folded in; the children
    declared after it and the configuration's own calibration config are
    not looked at. *)
Theorem get_search_space_non_tunable_child
    (registry : Registry) (cls child : ConfigClass) (k kc : RegistrationKey)
    (earlier later : list Param) (earlier_trees : list (string * tunable_tree))
    (p : Param) (buffer : gmap string (list value)) (prefix : option string)
    (fuel : nat) :
  attribute "calibration_config" (get_default cls) = Some (CKey k) ->
  children_of (get_default cls) = earlier ++ p :: later ->
  unfolds_children registry earlier earlier_trees ->
  p_value p = CKey kc ->
  registry !! kc = Some child ->
  is_tunable child = false ->
  children_depth earlier_trees <= fuel ->
  get_search_space (S fuel) registry cls buffer prefix
  = Raise NonTunableConfigurationException.
Proof.
  intros Hcal Hchildren Hearlier Hp Hreg Htun Hfuel.
  simpl get_search_space. rewrite Hcal, Hchildren, fold_result_app.
  rewrite (fold_children_flat registry fuel prefix earlier_trees)
    with (ps := earlier); [|
      apply Forall_forall; intros c _ cls' b' p' f' Hunf Hdepth;
      by apply get_search_space_flat | done | done].
  simpl fold_result. unfold recurse_into at 1. rewrite Hp.
  simpl retrieve_configurations_from_key. by rewrite Hreg, Htun.
Qed.

(** X13: a tunable configuration whose first child refers to the
    configuration itself has no search space: the recursion never ends,
    which is a RecursionError whatever the bound on the depth. *)
Theorem get_search_space_self_nesting
    (registry : Registry) (cls : ConfigClass) (k kc : RegistrationKey)
    (p : Param) (later : list Param) :
  attribute "calibration_config" (get_default cls) = Some (CKey k) ->
  children_of (get_default cls) = p :: later ->
  p_value p = CKey kc ->
  registry !! kc = Some cls ->
  is_tunable cls = true ->
  forall fuel buffer prefix,
    get_search_space fuel registry cls buffer prefix = Raise RecursionError.
Proof.
  intros Hcal Hchildren Hp Hreg Htun fuel.
  induction fuel as [|fuel IH]; intros buffer prefix; [done|].
  simpl get_search_space. rewrite Hcal, Hchildren.
  simpl fold_result. unfold recurse_into at 1. rewrite Hp.
  simpl retrieve_configurations_from_key. by rewrite Hreg, Htun, IH.
Qed.

(** A class that is no tunable configuration, a root with such a child,
    and a root whose child is the root itself. *)
Definition plain_class : ConfigClass :=
  {| is_tunable := false; get_default := empty_config |}.

Definition root_with_child (child : string) : ConfigClass :=
  {| is_tunable := true;
     get_default :=
       set_value "calibration_config" (CKey (key_of "root_calibration"))
         (add_short {| p_name := "model"; p_value := CKey (key_of child);
                       p_tags := ∅; p_is_required := false;
                       p_is_registration := true; p_is_calibration := false |}
            (TunableConfiguration_get_default empty_config)) |}.

Definition odd_registry : Registry :=
  {[ key_of "plain" := plain_class;
     key_of "loop" := root_with_child "loop";
     key_of "root_calibration" := calibration_class {["lr" := [VInt 1; VInt 2]]} ]}.

Lemma get_search_space_non_tunable_child_witness :
  get_search_space 1 odd_registry (root_with_child "plain") ∅ None
  = Raise NonTunableConfigurationException.
Proof.
  apply (get_search_space_non_tunable_child odd_registry
           (root_with_child "plain") plain_class
           (key_of "root_calibration") (key_of "plain") [] [] []
           {| p_name := "model"; p_value := CKey (key_of "plain");
              p_tags := ∅; p_is_required := false;
              p_is_registration := true; p_is_calibration := false |}
           ∅ None 0);
    try (vm_compute; reflexivity); try exact I; try (simpl; lia).
Defined.

Lemma get_search_space_self_nesting_witness :
  get_search_space 1000 odd_registry (root_with_child "loop") ∅ None
  = Raise RecursionError.
Proof.
  apply (get_search_space_self_nesting odd_registry (root_with_child "loop")
           (key_of "root_calibration") (key_of "loop")
           {| p_name := "model"; p_value := CKey (key_of "loop");
              p_tags := ∅; p_is_required := false;
              p_is_registration := true; p_is_calibration := false |} []);
    vm_compute; reflexivity.
Defined.

End CalibratorConfig.

(** ** configurations/pipeline.py *)
Module Pipeline.
Import Configuration.

(** [sys.maxsize], the largest machine index (a 64-bit build), and the
    integers that fit a machine index. *)
Definition maxsize : Z := 2 ^ 63 - 1.

Definition is_index (i : Z) : Prop := (- maxsize - 1 <= i <= maxsize)%Z.

#[global] Instance is_index_dec i : Decision (is_index i).
Proof. unfold is_index. apply _. Defined.

(** The list after [insert(i, x)]: a negative index counts from the
    end, and an index out of range is clamped to the nearest end. *)
Definition insert_at {A} (i : Z) (x : A) (l : list A) : list A :=
  let n := Z.of_nat (length l) in
  let i := if (i <? 0)%Z then Z.max 0 (i + n) else Z.min i n in
  take (Z.to_nat i) l ++ x :: drop (Z.to_nat i) l.

(** [list.insert(i, x)]: the index is converted to a machine index
    first, which raises OverflowError when it does not fit. *)
Definition py_list_insert {A} (i : Z) (x : A) (l : list A) : result (list A) :=
  if decide (is_index i) then Ok (insert_at i x l) else Raise OverflowError.

(** The arguments of one call of [add_pipeline_component] that the
    function uses itself (the others are passed on to [add_short]). *)
Record call := {
  c_name : string;
  c_value : cvalue;
  c_tags : option (gset string);
  c_is_required : bool;
  c_order : option Z
}.

(** [OrderedPipelineConfig.add_pipeline_component], as a computation on
    the configuration [self]: what the call has stored stays stored when
    it raises.  [self.ordering] is the value of the parameter [ordering];
    [append] and [insert] need it to be a list. *)
Definition add_pipeline_component (c : call) : M Configuration unit :=
  fun self =>
  let tags := match c_tags c with
              | Some tags => tags ∪ {["pipeline"]}
              | None => {["pipeline"]}
              end in
  let self := add_short {| p_name := c_name c; p_value := c_value c;
                           p_tags := tags; p_is_required := c_is_required c;
                           p_is_registration := true;
                           p_is_calibration := false |} self in
  let self := if has_field "ordering" self then self
              else add_short {| p_name := "ordering"; p_value := CNames [];
                                p_tags := ∅; p_is_required := true;
                                p_is_registration := false;
                                p_is_calibration := false |} self in
  match attribute "ordering" self with
  | Some (CNames ordering) =>
      match c_order c with
      | None =>
          (set_value "ordering" (CNames (ordering ++ [c_name c])) self, Ok tt)
      | Some order =>
          match py_list_insert order (c_name c) ordering with
          | Ok ordering => (set_value "ordering" (CNames ordering) self, Ok tt)
          | Raise e => (self, Raise e)
          end
      end
  | _ => (self, Raise AttributeError)
  end.

(** A sequence of calls on the same configuration. *)
Definition add_pipeline_components (calls : list call) : M Configuration unit :=
  for_each calls add_pipeline_component.

(** The ordering list of a configuration ([[]] before the first stage). *)
Definition ordering_of (cfg : Configuration) : list string :=
  match attribute "ordering" cfg with
  | Some (CNames l) => l
  | _ => []
  end.

(** The parameter [ordering] is absent or holds a list of names. *)
Definition ordering_ok (cfg : Configuration) : Prop :=
  lookup_field "ordering" (fields cfg) = None
  \/ exists p l, lookup_field "ordering" (fields cfg) = Some p /\ p_value p = CNames l.

(** The explicit order of the call, if any, fits a machine index. *)
Definition order_fits (c : call) : Prop :=
  forall i, c_order c = Some i -> is_index i.

Lemma lookup_field_set_value name v ps p :
  lookup_field name ps = Some p ->
  lookup_field name
    ((fun p => if decide (p_name p = name) then with_value v p else p) <$> ps)
  = Some (with_value v p).
Proof.
  induction ps as [|p' ps IH]; simpl; [done|].
  destruct (decide (p_name p' = name)) as [Heq|Hne]; simpl.
  - intros [= ->]. by rewrite decide_True.
  - intros Hp. rewrite decide_False by done. by apply IH.
Qed.

Lemma lookup_field_set_value_ne name name' v ps :
  name ≠ name' ->
  lookup_field name'
    ((fun p => if decide (p_name p = name) then with_value v p else p) <$> ps)
  = lookup_field name' ps.
Proof.
  intros Hne. induction ps as [|p ps IH]; simpl; [done|].
  destruct (decide (p_name p = name)) as [Heq|Hne']; simpl.
  - rewrite !decide_False by congruence. apply IH.
  - destruct (decide (p_name p = name')); [done|apply IH].
Qed.

(** The configuration the call works on once the stage is stored and
    the ordering parameter is there. *)
Definition stage_param (c : call) : Param :=
  {| p_name := c_name c; p_value := c_value c;
     p_tags := match c_tags c with
               | Some tags => tags ∪ {["pipeline"]}
               | None => {["pipeline"]}
               end;
     p_is_required := c_is_required c;
     p_is_registration := true; p_is_calibration := false |}.

Definition with_stage (c : call) (self : Configuration) : Configuration :=
  let self := add_short (stage_param c) self in
  if has_field "ordering" self then self
  else add_short {| p_name := "ordering"; p_value := CNames [];
                    p_tags := ∅; p_is_required := true;
                    p_is_registration := false;
                    p_is_calibration := false |} self.

Lemma add_pipeline_component_eq (c : call) (self : Configuration) :
  add_pipeline_component c self
  = match attribute "ordering" (with_stage c self) with
    | Some (CNames ordering) =>
        match c_order c with
        | None =>
            (set_value "ordering" (CNames (ordering ++ [c_name c]))
               (with_stage c self), Ok tt)
        | Some order =>
            match py_list_insert order (c_name c) ordering with
            | Ok ordering =>
                (set_value "ordering" (CNames ordering) (with_stage c self), Ok tt)
            | Raise e => (with_stage c self, Raise e)
            end
        end
    | _ => (with_stage c self, Raise AttributeError)
    end.
Proof. reflexivity. Qed.

Lemma with_stage_ordering (c : call) (self : Configuration) :
  c_name c ≠ "ordering" ->
  ordering_ok self ->
  exists p,
    lookup_field "ordering" (fields (with_stage c self)) = Some p
    /\ p_value p = CNames (ordering_of self).
Proof.
  intros Hname Hok. unfold with_stage.
  set (stage := stage_param c).
  set (ord := {| p_name := "ordering" |}).
  assert (lookup_field "ordering" (fields (add_short stage self))
          = lookup_field "ordering" (fields self)) as Hkeep
    by by apply lookup_set_field_ne.
  unfold has_field. destruct Hok as [Hno|(p & l & Hp & Hl)].
  - rewrite bool_decide_eq_false_2
      by (rewrite Hkeep, Hno; by intros [? ?]).
    exists ord. split; [apply (lookup_set_field_eq ord)|].
    unfold ordering_of, attribute. by rewrite Hno.
  - rewrite bool_decide_eq_true_2 by (rewrite Hkeep, Hp; by eexists).
    exists p. split; [by rewrite Hkeep|].
    unfold ordering_of, attribute. rewrite Hp. simpl. by rewrite Hl.
Qed.

Lemma with_stage_lookup (c : call) (self : Configuration) name :
  name ≠ "ordering" ->
  lookup_field name (fields (with_stage c self))
  = lookup_field name (set_field (stage_param c) (fields self)).
Proof.
  intros Hne. unfold with_stage.
  destruct (has_field "ordering" _); [done|].
  by apply lookup_set_field_ne.
Qed.

Lemma set_ordering (cfg : Configuration) p l :
  lookup_field "ordering" (fields cfg) = Some p ->
  ordering_ok (set_value "ordering" (CNames l) cfg)
  /\ ordering_of (set_value "ordering" (CNames l) cfg) = l.
Proof.
  intros Hp.
  pose proof (lookup_field_set_value "ordering" (CNames l) _ _ Hp) as Hnew.
  split.
  - right. exists (with_value (CNames l) p), l. by split.
  - unfold ordering_of, attribute, set_value. simpl. by rewrite Hnew.
Qed.

Lemma add_pipeline_component_step (self : Configuration) (c : call) :
  c_name c ≠ "ordering" ->
  ordering_ok self ->
  order_fits c ->
  exists self',
    add_pipeline_component c self = (self', Ok tt)
    /\ ordering_ok self'
    /\ ordering_of self'
       = match c_order c with
         | None => ordering_of self ++ [c_name c]
         | Some order => insert_at order (c_name c) (ordering_of self)
         end.
Proof.
  intros Hname Hok Hfits. rewrite add_pipeline_component_eq.
  destruct (with_stage_ordering c self Hname Hok) as (p & Hp & Hl).
  unfold attribute. rewrite Hp. simpl. rewrite Hl.
  destruct (c_order c) as [i|] eqn:Horder.
  - unfold py_list_insert. rewrite decide_True by by apply Hfits.
    eexists. split; [done|]. by apply (set_ordering _ p).
  - eexists. split; [done|]. by apply (set_ordering _ p).
Qed.

Lemma add_pipeline_components_snoc calls c self :
  add_pipeline_components (calls ++ [c]) self
  = match add_pipeline_components calls self with
    | (cfg, Ok _) => add_pipeline_component c cfg
    | (cfg, Raise e) => (cfg, Raise e)
    end.
Proof.
  unfold add_pipeline_components. rewrite for_each_app. unfold bind.
  destruct (for_each calls add_pipeline_component self) as [cfg [[]|e]]; [|done].
  simpl. unfold bind. by destruct (add_pipeline_component c cfg) as [cfg' [[]|e]].
Qed.

Lemma add_pipeline_components_ok calls self :
  Forall (fun c => c_name c ≠ "ordering" /\ order_fits c) calls ->
  ordering_ok self ->
  exists cfg, add_pipeline_components calls self = (cfg, Ok tt) /\ ordering_ok cfg.
Proof.
  intros Hnames. revert self.
  induction Hnames as [|c calls [Hc Hfits] _ IH]; intros self Hok.
  - by exists self.
  - destruct (add_pipeline_component_step self c Hc Hok Hfits)
      as (self' & Hstep & Hok' & _).
    destruct (IH self' Hok') as (cfg & Hcfg & Hok'').
    exists cfg. split; [|done].
    unfold add_pipeline_components in *. simpl.
    by rewrite (bind_ok _ _ _ _ _ Hstep).
Qed.

(** Declaration order is execution order by default: calls without an
    explicit order leave the stage names in call order. *)
Lemma add_pipeline_components_declaration_order calls self :
  ordering_ok self ->
  Forall (fun c => c_name c ≠ "ordering" /\ c_order c = None) calls ->
  exists cfg,
    add_pipeline_components calls self = (cfg, Ok tt)
    /\ ordering_ok cfg
    /\ ordering_of cfg = ordering_of self ++ (c_name <$> calls).
Proof.
  intros Hok Hcalls. revert self Hok.
  induction Hcalls as [|c calls [Hname Horder] _ IH]; intros self Hok.
  - exists self. simpl. by rewrite app_nil_r.
  - destruct (add_pipeline_component_step self c Hname Hok)
      as (self' & Hstep & Hok' & Hnew).
    { intros i Hi. congruence. }
    destruct (IH self' Hok') as (cfg & Hcfg & Hok'' & Hord).
    exists cfg. split; [|split; [done|]].
    + unfold add_pipeline_components in *. simpl.
      by rewrite (bind_ok _ _ _ _ _ Hstep).
    + rewrite Hord, Hnew, Horder. by rewrite <- app_assoc.
Qed.

(** Inside the list, [insert] puts the name at the index given and moves
    the names from that index on one place back. *)
Lemma insert_at_in_range {A} (i : Z) (x : A) (l : list A) :
  (0 <= i <= Z.of_nat (length l))%Z ->
  insert_at i x l !! Z.to_nat i = Some x
  /\ (forall j, j < Z.to_nat i -> insert_at i x l !! j = l !! j)
  /\ (forall j, Z.to_nat i <= j -> insert_at i x l !! S j = l !! j).
Proof.
  intros Hi. unfold insert_at.
  destruct (Z.ltb_spec i 0) as [|_]; [lia|].
  rewrite Z.min_l by lia.
  assert (length (take (Z.to_nat i) l) = Z.to_nat i) as Hlen
    by (rewrite length_take; lia).
  split; [|split].
  - rewrite lookup_app_r by lia. by rewrite Hlen, Nat.sub_diag.
  - intros j Hj. rewrite lookup_app_l by lia. by rewrite lookup_take_lt.
  - intros j Hj. rewrite lookup_app_r by lia. rewrite Hlen.
    replace (S j - Z.to_nat i) with (S (j - Z.to_nat i)) by lia. simpl.
    rewrite lookup_drop. f_equal. lia.
Qed.

(** C7 (amended): on a configuration without an [ordering] parameter
    yet, any sequence of calls with distinct stage names that are new to
    the configuration, none of them the name [ordering] of the synthesized
    parameter, and with explicit orders that fit a machine index,
    succeeds, and its last call
    - without an explicit order appends the stage's name to the ordering
      list the earlier calls produced;
    - with an explicit order [i] changes that list as Python's
      [insert(i, name)] does: for a position [i] of the list (up to its
      end) the name is at index [i], the names before keep their index and
      the names from [i] on move one place back. *)
Theorem add_pipeline_component_ordering
    (self : Configuration) (calls : list call) (c : call) :
  has_field "ordering" self = false ->
  Forall (fun c => has_field (c_name c) self = false) (calls ++ [c]) ->
  NoDup ("ordering" :: (c_name <$> calls ++ [c])) ->
  Forall order_fits (calls ++ [c]) ->
  exists cfg cfg',
    add_pipeline_components calls self = (cfg, Ok tt)
    /\ add_pipeline_component c cfg = (cfg', Ok tt)
    /\ add_pipeline_components (calls ++ [c]) self = (cfg', Ok tt)
    /\ (c_order c = None ->
        ordering_of cfg' = ordering_of cfg ++ [c_name c])
    /\ (forall i, c_order c = Some i ->
        ordering_of cfg' = insert_at i (c_name c) (ordering_of cfg)
        /\ ((0 <= i <= Z.of_nat (length (ordering_of cfg)))%Z ->
            ordering_of cfg' !! Z.to_nat i = Some (c_name c)
            /\ (forall j, j < Z.to_nat i ->
                  ordering_of cfg' !! j = ordering_of cfg !! j)
            /\ (forall j, Z.to_nat i <= j ->
                  ordering_of cfg' !! S j = ordering_of cfg !! j))).
Proof.
  intros Hfresh _ [Hord _]%NoDup_cons Hfits.
  assert (Forall (fun c => c_name c ≠ "ordering" /\ order_fits c) (calls ++ [c]))
    as Hnames.
  { apply Forall_forall. intros c' Hc'. split.
    - intros Heq. apply Hord. rewrite <- Heq. by apply list_elem_of_fmap_2.
    - by apply (proj1 (Forall_forall _ _) Hfits). }
  apply Forall_app in Hnames as [Hcalls Hc]. rewrite Forall_singleton in Hc.
  destruct Hc as [Hc Hcfits].
  assert (ordering_ok self) as Hok.
  { left. unfold has_field in Hfresh. apply bool_decide_eq_false in Hfresh.
    destruct (lookup_field "ordering" (fields self)); [|done].
    destruct Hfresh. by eexists. }
  destruct (add_pipeline_components_ok calls self Hcalls Hok) as (cfg & Hcfg & Hok').
  destruct (add_pipeline_component_step cfg c Hc Hok' Hcfits)
    as (cfg' & Hstep & _ & Hnew).
  exists cfg, cfg'. split; [done|]. split; [done|]. split.
  { by rewrite add_pipeline_components_snoc, Hcfg. }
  split.
  - intros Hnone. by rewrite Hnew, Hnone.
  - intros i Hsome. rewrite Hnew, Hsome. split; [done|].
    apply insert_at_in_range.
Qed.

(** The explicit orders of a list of concrete calls fit. *)
Ltac solve_order_fits :=
  cbn [app];
  repeat (apply List.Forall_cons;
          [intros ? Hi; simpl in Hi;
           first [discriminate Hi
                 | injection Hi as <-; refine (bool_decide_unpack _ _);
                   vm_compute; exact I]|]);
  apply List.Forall_nil.

Definition stage (name : string) (order : option Z) : call :=
  {| c_name := name; c_value := CNone; c_tags := None;
     c_is_required := false; c_order := order |}.

(** Three stages declared without an order, then a fourth with order 0. *)
Example ordering_three_then_front :
  ordering_of (add_pipeline_components
                 [stage "a" None; stage "b" None; stage "c" None]
                 empty_config).1
  = ["a"; "b"; "c"]
  /\ ordering_of (add_pipeline_components
                    [stage "a" None; stage "b" None; stage "c" None;
                     stage "d" (Some 0%Z)]
                    empty_config).1
     = ["d"; "a"; "b"; "c"].
Proof. split; vm_compute; reflexivity. Qed.

(** Every stage carries the tag [pipeline] and is a registration. *)
Example stage_is_tagged :
  (fun p => (p_tags p, p_is_registration p))
    <$> lookup_field "a" (fields (add_pipeline_component (stage "a" None)
                                    empty_config).1)
  = Some ({["pipeline"]}, true).
Proof. vm_compute. reflexivity. Qed.

(** Outside the list the index is clamped, and a negative index counts
    from the end; an index that does not fit a machine index raises. *)
Example py_list_insert_out_of_range :
  py_list_insert 7 "d" ["a"; "b"; "c"] = Ok ["a"; "b"; "c"; "d"]
  /\ py_list_insert (-1) "d" ["a"; "b"; "c"] = Ok ["a"; "b"; "d"; "c"]
  /\ py_list_insert (2 ^ 63) "d" ["a"; "b"; "c"] = Raise OverflowError.
Proof. repeat split; reflexivity. Qed.

Lemma add_pipeline_component_ordering_witness :
  exists cfg cfg',
    add_pipeline_components [stage "a" None; stage "b" None; stage "c" None]
      empty_config = (cfg, Ok tt)
    /\ add_pipeline_component (stage "d" (Some 0%Z)) cfg = (cfg', Ok tt)
    /\ ordering_of cfg = ["a"; "b"; "c"]
    /\ ordering_of cfg' = ["d"; "a"; "b"; "c"].
Proof.
  destruct (add_pipeline_component_ordering empty_config
              [stage "a" None; stage "b" None; stage "c" None]
              (stage "d" (Some 0%Z)) eq_refl)
    as (cfg & cfg' & Hcfg & Hstep & _ & _ & Hins).
  { repeat (apply List.Forall_cons; [reflexivity|]). apply List.Forall_nil. }
  { refine (bool_decide_unpack _ _). vm_compute. exact I. }
  { solve_order_fits. }
  exists cfg, cfg'. split; [exact Hcfg|]. split; [exact Hstep|].
  assert (ordering_of cfg = ["a"; "b"; "c"]) as Hold.
  { vm_compute in Hcfg. injection Hcfg as <-. vm_compute. reflexivity. }
  split; [exact Hold|].
  destruct (Hins 0%Z eq_refl) as [-> _]. rewrite Hold. reflexivity.
Defined.

(** C7 as the specification words it: for calls with distinct stage
    names, a call without an explicit order appends the stage's name. *)
Definition distinct_names_are_appended : Prop :=
  forall (self : Configuration) (calls : list call) (c : call),
    has_field "ordering" self = false ->
    NoDup (c_name <$> calls ++ [c]) ->
    c_order c = None ->
    exists cfg cfg',
      add_pipeline_components calls self = (cfg, Ok tt)
      /\ add_pipeline_component c cfg = (cfg', Ok tt)
      /\ ordering_of cfg' = ordering_of cfg ++ [c_name c].

(** C7 fails on the code as worded: a first stage named [ordering] is
    found by the test ['ordering' not in self], no ordering list is
    created, and the append is tried on the stage's own value. *)
Lemma add_pipeline_component_rejects_stage_named_ordering :
  ~ distinct_names_are_appended.
Proof.
  intros Hclaim.
  assert (NoDup (c_name <$> [] ++ [stage "ordering" None])) as Hdistinct
    by apply NoDup_singleton.
  destruct (Hclaim empty_config [] (stage "ordering" None) eq_refl
              Hdistinct eq_refl)
    as (cfg & cfg' & Hcfg & Hstep & _).
  injection Hcfg as <-. vm_compute in Hstep. discriminate Hstep.
Qed.

(** *** More on the ordering list and on the stage parameters *)

Lemma insert_at_Permutation {A} (i : Z) (x : A) (l : list A) :
  insert_at i x l ≡ₚ x :: l.
Proof.
  unfold insert_at. rewrite <- Permutation_middle.
  by rewrite take_drop.
Qed.

Lemma add_pipeline_components_permutation calls self :
  Forall (fun c => c_name c ≠ "ordering" /\ order_fits c) calls ->
  ordering_ok self ->
  exists cfg,
    add_pipeline_components calls self = (cfg, Ok tt)
    /\ ordering_of cfg ≡ₚ ordering_of self ++ (c_name <$> calls).
Proof.
  intros Hnames. revert self.
  induction Hnames as [|c calls [Hc Hfits] _ IH]; intros self Hok.
  - exists self. simpl. by rewrite app_nil_r.
  - destruct (add_pipeline_component_step self c Hc Hok Hfits)
      as (self' & Hstep & Hok' & Hnew).
    destruct (IH self' Hok') as (cfg & Hcfg & Hperm).
    exists cfg. split.
    + unfold add_pipeline_components in *. cbn [for_each].
      by rewrite (bind_ok _ _ _ _ _ Hstep).
    + rewrite Hperm, Hnew, fmap_cons.
      destruct (c_order c) as [i|].
      * rewrite insert_at_Permutation. simpl. apply Permutation_middle.
      * by rewrite <- app_assoc.
Qed.

(** X15: whatever the explicit orders of the calls that fit a machine
    index (absent, inside the list, beyond its end or negative), after a
    sequence of calls with distinct stage names, new to the configuration,
    on a configuration without an ordering yet the ordering list is a
    rearrangement of the stage names: every stage is in it exactly once,
    and its length is the number of calls. *)
Theorem add_pipeline_components_ordering_permutation
    (self : Configuration) (calls : list call) :
  has_field "ordering" self = false ->
  Forall (fun c => has_field (c_name c) self = false) calls ->
  NoDup ("ordering" :: (c_name <$> calls)) ->
  Forall order_fits calls ->
  exists cfg,
    add_pipeline_components calls self = (cfg, Ok tt)
    /\ ordering_of cfg ≡ₚ c_name <$> calls
    /\ NoDup (ordering_of cfg)
    /\ length (ordering_of cfg) = length calls.
Proof.
  intros Hfresh _ [Hord Hdistinct]%NoDup_cons Hfits.
  assert (Forall (fun c => c_name c ≠ "ordering" /\ order_fits c) calls) as Hnames.
  { apply Forall_forall. intros c Hc. split.
    - intros Heq. apply Hord. rewrite <- Heq. by apply list_elem_of_fmap_2.
    - by apply (proj1 (Forall_forall _ _) Hfits). }
  assert (lookup_field "ordering" (fields self) = None) as Hno.
  { unfold has_field in Hfresh. apply bool_decide_eq_false in Hfresh.
    destruct (lookup_field "ordering" (fields self)); [|done].
    destruct Hfresh. by eexists. }
  destruct (add_pipeline_components_permutation calls self Hnames (or_introl Hno))
    as (cfg & Hcfg & Hperm).
  assert (ordering_of self = []) as Hempty
    by (unfold ordering_of, attribute; by rewrite Hno).
  rewrite Hempty in Hperm. simpl in Hperm.
  exists cfg. split; [done|]. split; [done|]. split.
  - by rewrite Hperm.
  - by rewrite Hperm, length_fmap.
Qed.

(** X16: however a call for a new stage not named [ordering] ends, the
    stage is stored under its name as a registration whose tags are
    exactly the caller's tags and the tag [pipeline], with the value and
    the required flag the caller gave; every other parameter but
    [ordering] is as it was before the call. *)
Theorem add_pipeline_component_stage
    (self self' : Configuration) (c : call) (out : result unit) :
  c_name c ≠ "ordering" ->
  has_field (c_name c) self = false ->
  add_pipeline_component c self = (self', out) ->
  (exists p,
     lookup_field (c_name c) (fields self') = Some p
     /\ p_value p = c_value c
     /\ p_is_registration p = true
     /\ p_is_required p = c_is_required c
     /\ p_tags p = default ∅ (c_tags c) ∪ {["pipeline"]})
  /\ forall name, name ≠ c_name c -> name ≠ "ordering" ->
       lookup_field name (fields self') = lookup_field name (fields self).
Proof.
  intros Hname _. rewrite add_pipeline_component_eq.
  set (stage := stage_param c).
  assert (forall cfg,
            (cfg = with_stage c self
             \/ exists l, cfg = set_value "ordering" (CNames l) (with_stage c self)) ->
            (exists p,
               lookup_field (c_name c) (fields cfg) = Some p
               /\ p_value p = c_value c
               /\ p_is_registration p = true
               /\ p_is_required p = c_is_required c
               /\ p_tags p = default ∅ (c_tags c) ∪ {["pipeline"]})
            /\ forall name, name ≠ c_name c -> name ≠ "ordering" ->
                 lookup_field name (fields cfg) = lookup_field name (fields self))
    as Hstored.
  { intros cfg Hcfg.
    assert (forall name, name ≠ "ordering" ->
              lookup_field name (fields cfg)
              = lookup_field name (set_field stage (fields self))) as Hkeep.
    { intros name Hne. destruct Hcfg as [->|[l ->]].
      - by apply with_stage_lookup.
      - unfold set_value. simpl. rewrite lookup_field_set_value_ne by done.
        by apply with_stage_lookup. }
    split.
    - exists stage. rewrite Hkeep by done.
      split; [apply (lookup_set_field_eq stage)|].
      repeat split. simpl. destruct (c_tags c) as [tags|]; simpl; [done|].
      by rewrite (left_id_L ∅ (∪)).
    - intros name Hne Hne'. rewrite Hkeep by done.
      by apply lookup_set_field_ne. }
  destruct (attribute "ordering" (with_stage c self)) as [[| | | | | |ordering|]|];
    try (intros [= <- _]; apply Hstored; by left).
  destruct (c_order c) as [i|].
  - destruct (py_list_insert i (c_name c) ordering) as [l|e];
      intros [= <- _]; apply Hstored; [right; by eexists|by left].
  - intros [= <- _]. apply Hstored. right. by eexists.
Qed.

(** X17: for a new stage, an explicit order outside the list that fits
    a machine index is no error.  An order at or beyond the end appends the name, an order
    at or below minus the length puts it first, and a negative order within
    the list counts from the end. *)
Theorem add_pipeline_component_order_out_of_range
    (self : Configuration) (c : call) (i : Z) :
  c_name c ≠ "ordering" ->
  has_field (c_name c) self = false ->
  ordering_ok self ->
  c_order c = Some i ->
  is_index i ->
  exists self',
    add_pipeline_component c self = (self', Ok tt)
    /\ ((Z.of_nat (length (ordering_of self)) <= i)%Z ->
        ordering_of self' = ordering_of self ++ [c_name c])
    /\ ((i <= - Z.of_nat (length (ordering_of self)))%Z ->
        ordering_of self' = c_name c :: ordering_of self)
    /\ ((- Z.of_nat (length (ordering_of self)) < i < 0)%Z ->
        ordering_of self'
        = take (Z.to_nat (Z.of_nat (length (ordering_of self)) + i))
            (ordering_of self)
          ++ c_name c
             :: drop (Z.to_nat (Z.of_nat (length (ordering_of self)) + i))
                  (ordering_of self)).
Proof.
  intros Hname _ Hok Horder Hfits.
  destruct (add_pipeline_component_step self c Hname Hok)
    as (self' & Hrun & _ & Hnew).
  { intros i' Hi'. congruence. }
  exists self'. split; [done|]. rewrite Hnew, Horder. unfold insert_at.
  generalize (ordering_of self) as l. intros l. split; [|split]; intros Hi.
  - destruct (Z.ltb_spec i 0) as [|_]; [lia|]. rewrite Z.min_r by lia.
    rewrite Nat2Z.id. by rewrite firstn_all, drop_all.
  - destruct (Z.ltb_spec i 0) as [_|Hge].
    + rewrite Z.max_l by lia. done.
    + assert (i = 0%Z) as -> by lia. assert (l = []) as ->
        by (destruct l; [done|simpl in Hi; lia]).
      done.
  - destruct (Z.ltb_spec i 0) as [_|]; [|lia]. rewrite Z.max_r by lia.
    by rewrite (Z.add_comm i).
Qed.

(** X28: for a new stage, an explicit order that does not fit a machine
    index makes the call raise OverflowError after the stage has been stored: the
    configuration then holds the stage as a parameter, the ordering list
    is as it was before the call, and the stage's name is not in it when
    it was not before. *)
Theorem add_pipeline_component_order_overflow
    (self : Configuration) (c : call) (i : Z) :
  c_name c ≠ "ordering" ->
  has_field (c_name c) self = false ->
  ordering_ok self ->
  c_order c = Some i ->
  ~ is_index i ->
  exists self',
    add_pipeline_component c self = (self', Raise OverflowError)
    /\ has_field (c_name c) self' = true
    /\ ordering_of self' = ordering_of self
    /\ (c_name c ∉ ordering_of self -> c_name c ∉ ordering_of self').
Proof.
  intros Hname _ Hok Horder Hfits. rewrite add_pipeline_component_eq.
  destruct (with_stage_ordering c self Hname Hok) as (p & Hp & Hl).
  unfold attribute. rewrite Hp. simpl. rewrite Hl, Horder.
  unfold py_list_insert. rewrite decide_False by done.
  eexists. split; [done|].
  assert (ordering_of (with_stage c self) = ordering_of self) as Hsame.
  { unfold ordering_of at 1, attribute. rewrite Hp. simpl. by rewrite Hl. }
  split; [|split; [done|by rewrite Hsame]].
  unfold has_field. apply bool_decide_eq_true_2.
  rewrite with_stage_lookup by done.
  eexists. apply (lookup_set_field_eq (stage_param c)).
Qed.

(** X18: on a configuration without an ordering yet, a stage named
    [ordering] whose value is not a list takes the place of the ordering
    parameter, and the call raises AttributeError when it appends to it;
    the stage stays stored under the name [ordering]. *)
Theorem add_pipeline_component_reserved_name
    (self : Configuration) (c : call) :
  has_field "ordering" self = false ->
  c_name c = "ordering" ->
  (forall l, c_value c ≠ CNames l) ->
  exists self',
    add_pipeline_component c self = (self', Raise AttributeError)
    /\ attribute "ordering" self' = Some (c_value c).
Proof.
  intros _ Hname Hvalue. rewrite add_pipeline_component_eq. unfold with_stage.
  set (stage := stage_param c).
  assert (lookup_field "ordering" (fields (add_short stage self)) = Some stage)
    as Hstage.
  { pose proof (lookup_set_field_eq stage (fields self)) as Hl.
    simpl in Hl. by rewrite Hname in Hl. }
  unfold has_field. rewrite bool_decide_eq_true_2 by (rewrite Hstage; by eexists).
  unfold attribute. rewrite Hstage. simpl.
  destruct (c_value c) as [| | | | | |l|] eqn:Hv;
    try (eexists; split; [reflexivity|]; by rewrite Hstage; simpl; rewrite Hv).
  by destruct (Hvalue l).
Qed.

(** A configuration with the three stages [a], [b], [c]. *)
Definition three_stages : Configuration :=
  (add_pipeline_components
     [stage "a" None; stage "b" None; stage "c" None] empty_config).1.

Lemma three_stages_ordering_ok : ordering_ok three_stages.
Proof.
  right.
  exists {| p_name := "ordering"; p_value := CNames ["a"; "b"; "c"];
            p_tags := ∅; p_is_required := true; p_is_registration := false;
            p_is_calibration := false |}, ["a"; "b"; "c"].
  split; vm_compute; reflexivity.
Defined.

Lemma add_pipeline_components_ordering_permutation_witness :
  exists cfg,
    add_pipeline_components
      [stage "a" None; stage "b" (Some 0%Z); stage "c" (Some (-1)%Z);
       stage "d" (Some 9%Z)] empty_config = (cfg, Ok tt)
    /\ ordering_of cfg ≡ₚ ["a"; "b"; "c"; "d"]
    /\ NoDup (ordering_of cfg)
    /\ length (ordering_of cfg) = 4.
Proof.
  apply (add_pipeline_components_ordering_permutation empty_config
           [stage "a" None; stage "b" (Some 0%Z); stage "c" (Some (-1)%Z);
            stage "d" (Some 9%Z)] eq_refl).
  - repeat (apply List.Forall_cons; [reflexivity|]). apply List.Forall_nil.
  - refine (bool_decide_unpack _ _). vm_compute. exact I.
  - solve_order_fits.
Defined.

(** A stage with tags of the caller's and a value. *)
Definition tagged_stage : call :=
  {| c_name := "d"; c_value := CKey {| rk_name := "model"; rk_tags := ∅;
                                       rk_namespace := "demo" |};
     c_tags := Some {["slow"]}; c_is_required := true; c_order := Some 0%Z |}.

Lemma add_pipeline_component_stage_witness :
  (exists p,
     lookup_field "d" (fields (add_pipeline_component tagged_stage three_stages).1)
     = Some p
     /\ p_value p = c_value tagged_stage
     /\ p_is_registration p = true
     /\ p_is_required p = true
     /\ p_tags p = default ∅ (Some {["slow"]}) ∪ {["pipeline"]})
  /\ forall name, name ≠ "d" -> name ≠ "ordering" ->
       lookup_field name
         (fields (add_pipeline_component tagged_stage three_stages).1)
       = lookup_field name (fields three_stages).
Proof.
  apply (add_pipeline_component_stage three_stages _ tagged_stage
           (add_pipeline_component tagged_stage three_stages).2);
    [discriminate|reflexivity
    |by destruct (add_pipeline_component tagged_stage three_stages)].
Defined.

Lemma add_pipeline_component_order_out_of_range_witness :
  exists self',
    add_pipeline_component (stage "d" (Some 9%Z)) three_stages = (self', Ok tt)
    /\ ((Z.of_nat (length (ordering_of three_stages)) <= 9)%Z ->
        ordering_of self' = ordering_of three_stages ++ ["d"])
    /\ ((9 <= - Z.of_nat (length (ordering_of three_stages)))%Z ->
        ordering_of self' = "d" :: ordering_of three_stages)
    /\ ((- Z.of_nat (length (ordering_of three_stages)) < 9 < 0)%Z ->
        ordering_of self'
        = take (Z.to_nat (Z.of_nat (length (ordering_of three_stages)) + 9))
            (ordering_of three_stages)
          ++ "d"
             :: drop (Z.to_nat (Z.of_nat (length (ordering_of three_stages)) + 9))
                  (ordering_of three_stages)).
Proof.
  apply (add_pipeline_component_order_out_of_range three_stages
           (stage "d" (Some 9%Z)) 9);
    [discriminate|reflexivity|exact three_stages_ordering_ok|reflexivity|].
  refine (bool_decide_unpack _ _). vm_compute. exact I.
Defined.

Lemma add_pipeline_component_order_overflow_witness :
  exists self',
    add_pipeline_component (stage "d" (Some (2 ^ 63)%Z)) three_stages
    = (self', Raise OverflowError)
    /\ has_field "d" self' = true
    /\ ordering_of self' = ordering_of three_stages
    /\ ("d" ∉ ordering_of three_stages -> "d" ∉ ordering_of self').
Proof.
  apply (add_pipeline_component_order_overflow three_stages
           (stage "d" (Some (2 ^ 63)%Z)) (2 ^ 63));
    [discriminate|reflexivity|exact three_stages_ordering_ok|reflexivity|].
  intros Hfits. apply (bool_decide_pack _) in Hfits. vm_compute in Hfits.
  exact Hfits.
Defined.

Lemma add_pipeline_component_reserved_name_witness :
  exists self',
    add_pipeline_component (stage "ordering" None) empty_config
    = (self', Raise AttributeError)
    /\ attribute "ordering" self' = Some CNone.
Proof.
  apply (add_pipeline_component_reserved_name empty_config
           (stage "ordering" None) eq_refl eq_refl).
  discriminate.
Defined.

End Pipeline.

(** ** api/commands.py *)
Module Commands.
Import Configuration.

(** Paths are modelled by their text. *)
Abbreviation Path := string.

Definition joinpath (p : Path) (name : string) : Path := p +:+ "/" +:+ name.

(** The log lines of [run_component_from_key], with their level. *)
Inductive log_entry :=
| InfoRetrieving (key : RegistrationKey)      (* info: 'Retrieving Component from key: ..' *)
| InfoSerializing (path : Path)               (* info: 'Serializing Component state to: ..' *)
| WarningReplacementExists (replacement_path : Path)
                                              (* warning: 'Replacement path .. already exists! Skipping replacement...' *)
| InfoRenaming (serialization_path replacement_path : Path).
                                              (* info: 'Renaming .. to ..' *)

Definition is_warning (e : log_entry) : bool :=
  match e with WarningReplacementExists _ => true | _ => false end.

(** A value passed to [component.run]. *)
Inductive run_arg :=
| RValue (v : value)
| RPath (p : Path).

(** [strip_prefix pre s]: what is left of [s] after [pre], when [s]
    starts with [pre]. *)
Fixpoint strip_prefix (pre s : string) : option string :=
  match pre, s with
  | EmptyString, _ => Some s
  | String a pre', String b s' =>
      if decide (a = b) then strip_prefix pre' s' else None
  | String _ _, EmptyString => None
  end.

(** Where the path [p] is after the directory [source] has been renamed
    to [target]: [source] itself and every path below it move with it, the
    other paths stay. *)
Definition moved (source target p : Path) : Path :=
  if decide (p = source) then target
  else match strip_prefix (source +:+ "/") p with
       | Some rest => joinpath target rest
       | None => p
       end.

Lemma string_app_assoc (a b c : string) : (a +:+ b) +:+ c = a +:+ (b +:+ c).
Proof.
  induction a as [|x a IH]; [reflexivity|].
  change (String x ((a +:+ b) +:+ c) = String x (a +:+ (b +:+ c))).
  by rewrite IH.
Qed.

Lemma strip_prefix_app (pre rest : string) :
  strip_prefix pre (pre +:+ rest) = Some rest.
Proof.
  induction pre as [|a pre IH].
  - change ("" +:+ rest) with rest. by destruct rest.
  - change (String a pre +:+ rest) with (String a (pre +:+ rest)). simpl.
    by rewrite decide_True.
Qed.

Lemma strip_prefix_Some (pre s rest : string) :
  strip_prefix pre s = Some rest -> s = pre +:+ rest.
Proof.
  revert s. induction pre as [|a pre IH]; intros s; simpl.
  - intros [= ->]. reflexivity.
  - destruct s as [|b s]; [done|].
    destruct (decide (a = b)) as [->|]; [|done].
    intros Hs. rewrite (IH _ Hs). reflexivity.
Qed.

Lemma string_app_ne (a b : string) : b ≠ "" -> a +:+ b ≠ a.
Proof.
  intros Hb. induction a as [|x a IH]; [exact Hb|].
  change (String x (a +:+ b) ≠ String x a). by intros [= Heq].
Qed.

Lemma moved_below (source target rest : string) :
  moved source target (joinpath source rest) = joinpath target rest.
Proof.
  unfold moved. rewrite decide_False.
  - unfold joinpath at 1. by rewrite <- string_app_assoc, strip_prefix_app.
  - apply string_app_ne. unfold String.append. discriminate.
Qed.

Section RunComponent.
(** Whatever else the program's state holds. *)
Context {U : Type}.

(** The state the command reads and writes: the paths that exist on
    disk, the log and the file it is written to, and the directory and
    run manager.
    Modelled from the spec: the manager (its source is not among the
    files) "owns a map from temporary run path to an intended final
    path, and a record of which registration key last produced output at
    which path": [runs_registry], and [run_tracker], the calls of
    [track_run] in order. *)
Record World := {
  fs : gset Path;
  runs_registry : gmap Path Path;
  run_tracker : list (RegistrationKey * Path);
  logging_path : option Path;
  log : list log_entry;
  ambient : U
}.

(** A built component: whether the signature of its [run] has a
    parameter named [serialization_path], its [run] and its [save]. *)
Record Component := {
  accepts_serialization_path : bool;
  comp_run : gmap string run_arg -> M World unit;
  comp_save : Path -> M World unit
}.

(** The registry and the manager, as the command calls them:
    [Registry.build_component_from_key],
    [FileManager.retrieve_built_component],
    [file_manager.register_temporary_run_name(replacement_name=, create_path=)]
    and [file_manager.logging_filename]. *)
Variable build_component_from_key : RegistrationKey -> M World Component.
Variable retrieve_file_manager : M World unit.
Variable register_temporary_run_name : option string -> bool -> M World Path.
Variable logging_filename : string.

(** [rename_fails source target w] is the exception of the renaming
    when the system refuses it in the state [w] (the parent of the target
    is missing, the target is inside the source, the two are on different
    devices, ...), and [None] when the renaming is done. *)
Variable rename_fails : Path -> Path -> World -> option exn.

Definition logger (e : log_entry) : M World unit :=
  fun w => ({| fs := fs w; runs_registry := runs_registry w;
               run_tracker := run_tracker w; logging_path := logging_path w;
               log := log w ++ [e]; ambient := ambient w |}, Ok tt).

(** [logging_utility.update_logger(path)] *)
Definition update_logger (p : Path) : M World unit :=
  fun w => ({| fs := fs w; runs_registry := runs_registry w;
               run_tracker := run_tracker w; logging_path := Some p;
               log := log w; ambient := ambient w |}, Ok tt).

(** [path.exists()] *)
Definition path_exists (p : Path) : M World bool :=
  fun w => (w, Ok (bool_decide (p ∈ fs w))).

(** [source.rename(target)]: the directory and everything in it are at
    [target] afterwards. *)
Definition rename (source target : Path) : M World unit :=
  fun w =>
    match rename_fails source target w with
    | Some e => (w, Raise e)
    | None =>
        ({| fs := set_map (moved source target) (fs w);
            runs_registry := runs_registry w;
            run_tracker := run_tracker w; logging_path := logging_path w;
            log := log w; ambient := ambient w |}, Ok tt)
    end.

(** [file_manager.runs_registry[path]] *)
Definition lookup_runs_registry (p : Path) : M World Path :=
  fun w => match runs_registry w !! p with
           | Some replacement => (w, Ok replacement)
           | None => (w, Raise KeyError)
           end.

(** Modelled from the spec: [file_manager.track_run], "record last
    output location (registration key, path)". *)
Definition track_run (key : RegistrationKey) (p : Path) : M World unit :=
  fun w => ({| fs := fs w; runs_registry := runs_registry w;
               run_tracker := run_tracker w ++ [(key, p)];
               logging_path := logging_path w;
               log := log w; ambient := ambient w |}, Ok tt).

(** [run_component_from_key] up to and including the optional [save];
    it returns [serialization_path]. *)
Definition run_and_serialize (config_registration_key : RegistrationKey)
    (serialize : bool) (run_name : option string)
    (run_args : option (gmap string run_arg)) : M World Path :=
  do _ <- logger (InfoRetrieving config_registration_key);
  do component <- build_component_from_key config_registration_key;
  do _ <- retrieve_file_manager;
  do serialization_path <- register_temporary_run_name run_name serialize;
  do _ <- update_logger (joinpath serialization_path logging_filename);
  let run_args := match run_args with Some a => a | None => ∅ end in
  let run_args :=
    if accepts_serialization_path component
    then <["serialization_path" := RPath serialization_path]> run_args
    else run_args in
  do _ <- comp_run component run_args;
  do _ <- (if serialize
           then do _ <- logger (InfoSerializing serialization_path);
                comp_save component serialization_path
           else ret tt);
  ret serialization_path.

(** The rest of [run_component_from_key]: the rename to the final path
    and the tracking of the run. *)
Definition finalize_run (config_registration_key : RegistrationKey)
    (run_name : option string) (serialization_path : Path) : M World unit :=
  do temporary_exists <- path_exists serialization_path;
  do serialization_path <-
    (if bool_decide (is_Some run_name) && temporary_exists
     then
       do replacement_path <- lookup_runs_registry serialization_path;
       do replacement_exists <- path_exists replacement_path;
       if replacement_exists
       then do _ <- logger (WarningReplacementExists replacement_path);
            ret serialization_path
       else do _ <- rename serialization_path replacement_path;
            do _ <- logger (InfoRenaming replacement_path replacement_path);
            ret replacement_path
     else ret serialization_path);
  do still_exists <- path_exists serialization_path;
  if still_exists
  then track_run config_registration_key serialization_path
  else ret tt.

Definition run_component_from_key (config_registration_key : RegistrationKey)
    (serialize : bool) (run_name : option string)
    (run_args : option (gmap string run_arg)) : M World unit :=
  do serialization_path <-
    run_and_serialize config_registration_key serialize run_name run_args;
  finalize_run config_registration_key run_name serialization_path.

(** C8: with a run name, when after the component has run (and been
    saved) the temporary path exists and the final path recorded for it
    exists too, the command ends normally; the paths on disk and the
    table of final paths are as the run left them (nothing is renamed),
    the log has grown by exactly one entry, a warning, and the manager
    was told once to track the key at the temporary path. *)
Theorem run_component_from_key_replacement_exists
    (key : RegistrationKey) (serialize : bool) (run_name : string)
    (run_args : option (gmap string run_arg))
    (w0 w1 : World) (temporary final : Path) :
  run_and_serialize key serialize (Some run_name) run_args w0
  = (w1, Ok temporary) ->
  temporary ∈ fs w1 ->
  runs_registry w1 !! temporary = Some final ->
  final ∈ fs w1 ->
  exists w2,
    run_component_from_key key serialize (Some run_name) run_args w0
    = (w2, Ok tt)
    /\ fs w2 = fs w1
    /\ runs_registry w2 = runs_registry w1
    /\ log w2 = log w1 ++ [WarningReplacementExists final]
    /\ is_warning (WarningReplacementExists final) = true
    /\ run_tracker w2 = run_tracker w1 ++ [(key, temporary)]
    /\ logging_path w2 = logging_path w1
    /\ ambient w2 = ambient w1.
Proof.
  intros Hrun Htmp Hreg Hfinal.
  eexists. split.
  - unfold run_component_from_key. rewrite (bind_ok _ _ _ _ _ Hrun).
    unfold finalize_run, bind, path_exists, lookup_runs_registry, logger,
      track_run, ret. simpl.
    rewrite (bool_decide_eq_true_2 _ Htmp). simpl. rewrite Hreg.
    rewrite (bool_decide_eq_true_2 _ Hfinal). simpl.
    rewrite (bool_decide_eq_true_2 _ Htmp). reflexivity.
  - simpl. done.
Qed.

(** After the renaming the target is on disk. *)
Lemma moved_source (source target : Path) (paths : gset Path) :
  source ∈ paths -> target ∈ (set_map (moved source target) paths : gset Path).
Proof.
  intros Hsource. apply elem_of_map. exists source. split; [|done].
  unfold moved. by rewrite decide_True.
Qed.

(** When the final path is free, the directory is renamed and the run
    is tracked at the final path. *)
Lemma finalize_run_renames (key : RegistrationKey) (run_name : string)
    (w : World) (temporary final : Path) :
  temporary ∈ fs w ->
  runs_registry w !! temporary = Some final ->
  final ∉ fs w ->
  rename_fails temporary final w = None ->
  exists w',
    finalize_run key (Some run_name) temporary w = (w', Ok tt)
    /\ fs w' = set_map (moved temporary final) (fs w)
    /\ log w' = log w ++ [InfoRenaming final final]
    /\ run_tracker w' = run_tracker w ++ [(key, final)].
Proof.
  intros Htmp Hreg Hfinal Hdone. eexists. split.
  - unfold finalize_run, bind, path_exists, lookup_runs_registry, logger,
      rename, track_run, ret. simpl.
    rewrite (bool_decide_eq_true_2 _ Htmp). simpl. rewrite Hreg.
    rewrite (bool_decide_eq_false_2 _ Hfinal). simpl. rewrite Hdone. simpl.
    rewrite bool_decide_eq_true_2 by by apply moved_source. reflexivity.
  - simpl. done.
Qed.

End RunComponent.

(** The calls [routine_multiple_inference] makes. *)
Inductive inference_call :=
| ERoutineInference (routine_path : option Path) (routine_name : option string).

Section MultipleInference.
Context {W : Type}.

(** [routine_inference(routine_path=, routine_name=,
    helper_registration_key=, serialize=)] *)
Variable routine_inference :
  option Path -> option string -> option RegistrationKey -> bool -> M W unit.

Definition inference_loop (pairs : list (option Path * option string))
    (helper_registration_key : option RegistrationKey) (serialize : bool)
    : M (traced W inference_call) unit :=
  for_each pairs (fun pair =>
    do _ <- emit (ERoutineInference pair.1 pair.2);
    lift (routine_inference pair.1 pair.2 helper_registration_key serialize)).

(** [routine_multiple_inference]: when [routine_paths] is given,
    [routine_names] is replaced by a list of [None], whether it was
    given or not; otherwise [routine_paths] is. *)
Definition routine_multiple_inference
    (routine_paths : option (list Path)) (routine_names : option (list string))
    (helper_registration_key : option RegistrationKey) (serialize : bool)
    : M (traced W inference_call) unit :=
  match routine_paths, routine_names with
  | None, None => raise AttributeError
  | Some paths, _ =>
      inference_loop (zip (Some <$> paths) (replicate (length paths) None))
        helper_registration_key serialize
  | None, Some names =>
      inference_loop (zip (replicate (length names) None) (Some <$> names))
        helper_registration_key serialize
  end.






Lemma routine_multiple_inference_neither helper serialize s :
  routine_multiple_inference None None helper serialize s
  = (s, Raise AttributeError).
Proof. reflexivity. Qed.

End MultipleInference.

(** C4 (the code does not meet the specification): when both lists are
    given the names are not passed on.  The call behaves as if
    [routine_names] were absent, and on two paths with two names
    [routine_inference] is called with each path and the name [None], not
    the caller's name. *)
Theorem routine_multiple_inference_drops_names :
  (forall (W : Type) routine_inference paths names helper serialize
          (s : traced W inference_call),
     routine_multiple_inference routine_inference (Some paths) (Some names)
       helper serialize s
     = routine_multiple_inference routine_inference (Some paths) None
         helper serialize s)
  /\ routine_multiple_inference (fun _ _ _ _ => ret tt)
       (Some ["runs/a"; "runs/b"]) (Some ["first"; "second"]) None false
       (tt, [])
     = ((tt, [ERoutineInference (Some "runs/a") None;
              ERoutineInference (Some "runs/b") None]), Ok tt).
Proof. split; reflexivity. Qed.

(** A concrete run: the final directory [runs/best] is already on disk;
    the manager hands out [runs/temp_0], creating it when asked to, and
    records [runs/best] as its final path. *)
Definition demo_key : RegistrationKey :=
  {| rk_name := "routine"; rk_tags := {["demo"]}; rk_namespace := "generic" |}.

Definition demo_world : World (U := unit) :=
  {| fs := {["runs/best"]}; runs_registry := ∅; run_tracker := [];
     logging_path := None; log := []; ambient := tt |}.

Definition demo_component : Component (U := unit) :=
  {| accepts_serialization_path := true;
     comp_run := fun _ => ret tt;
     comp_save := fun _ => ret tt |}.

Definition demo_register (replacement_name : option string) (create_path : bool)
    : M (World (U := unit)) Path :=
  fun w =>
    ({| fs := if create_path then fs w ∪ {["runs/temp_0"]} else fs w;
        runs_registry :=
          match replacement_name with
          | Some name => <["runs/temp_0" := joinpath "runs" name]> (runs_registry w)
          | None => runs_registry w
          end;
        run_tracker := run_tracker w; logging_path := logging_path w;
        log := log w; ambient := ambient w |}, Ok "runs/temp_0").

Definition demo_after_run : World (U := unit) :=
  {| fs := {["runs/best"]} ∪ {["runs/temp_0"]};
     runs_registry := {["runs/temp_0" := "runs/best"]};
     run_tracker := [];
     logging_path := Some "runs/temp_0/log.txt";
     log := [InfoRetrieving demo_key; InfoSerializing "runs/temp_0"];
     ambient := tt |}.

Lemma run_component_from_key_replacement_exists_witness :
  exists w2,
    run_component_from_key (fun _ => ret demo_component) (ret tt) demo_register
      "log.txt" (fun _ _ _ => None) demo_key true (Some "best") None demo_world
    = (w2, Ok tt)
    /\ fs w2 = fs demo_after_run
    /\ runs_registry w2 = runs_registry demo_after_run
    /\ log w2 = log demo_after_run ++ [WarningReplacementExists "runs/best"]
    /\ is_warning (WarningReplacementExists "runs/best") = true
    /\ run_tracker w2 = run_tracker demo_after_run ++ [(demo_key, "runs/temp_0")]
    /\ logging_path w2 = logging_path demo_after_run
    /\ ambient w2 = ambient demo_after_run.
Proof.
  apply (run_component_from_key_replacement_exists
           (fun _ => ret demo_component) (ret tt) demo_register "log.txt" (fun _ _ _ => None)
           demo_key true "best" None demo_world demo_after_run
           "runs/temp_0" "runs/best").
  - vm_compute. reflexivity.
  - refine (bool_decide_unpack _ _). vm_compute. exact I.
  - vm_compute. reflexivity.
  - refine (bool_decide_unpack _ _). vm_compute. exact I.
Defined.

Section RunComponentProperties.
Context {U : Type}.
Variable build_component_from_key :
  RegistrationKey -> M (World (U := U)) (Component (U := U)).
Variable retrieve_file_manager : M (World (U := U)) unit.
Variable register_temporary_run_name : option string -> bool -> M (World (U := U)) Path.
Variable logging_filename : string.
Variable rename_fails : Path -> Path -> World (U := U) -> option exn.

Local Abbreviation run_and_serialize' :=
  (run_and_serialize build_component_from_key retrieve_file_manager
     register_temporary_run_name logging_filename).
Local Abbreviation run_component_from_key' :=
  (run_component_from_key build_component_from_key retrieve_file_manager
     register_temporary_run_name logging_filename rename_fails).

(** X19: once the component has run (and been saved), whatever the
    rest of [run_component_from_key] does and however it ends, it leaves
    the table of final paths, the logging path and the rest of the state
    alone; it writes at most one log line; it tracks at most one run, of
    the given key, at a path that is on disk at the end; and the only
    change it can make to the disk is to move the temporary directory,
    with everything in it, to its final path, which it does only with a
    run name and a free final path. *)
Theorem run_component_from_key_after_run
    (key : RegistrationKey) (serialize : bool) (run_name : option string)
    (run_args : option (gmap string run_arg))
    (w0 w1 w2 : World) (temporary : Path) (out : result unit) :
  run_and_serialize' key serialize run_name run_args w0 = (w1, Ok temporary) ->
  run_component_from_key' key serialize run_name run_args w0 = (w2, out) ->
  runs_registry w2 = runs_registry w1
  /\ logging_path w2 = logging_path w1
  /\ ambient w2 = ambient w1
  /\ (log w2 = log w1 \/ exists e, log w2 = log w1 ++ [e])
  /\ (run_tracker w2 = run_tracker w1
      \/ exists p, run_tracker w2 = run_tracker w1 ++ [(key, p)] /\ p ∈ fs w2)
  /\ (fs w2 = fs w1
      \/ exists final,
           is_Some run_name /\ temporary ∈ fs w1
           /\ runs_registry w1 !! temporary = Some final /\ (final ∉ fs w1)
           /\ forall p, p ∈ fs w2
                <-> exists p1, p1 ∈ fs w1 /\ p = moved temporary final p1).
Proof.
  intros Hrun. unfold run_component_from_key.
  rewrite (bind_ok _ _ _ _ _ Hrun).
  unfold finalize_run, bind, path_exists, lookup_runs_registry, logger,
    rename, track_run, ret. simpl.
  destruct (bool_decide (is_Some run_name)) eqn:Hname; simpl.
  - apply bool_decide_eq_true_1 in Hname.
    destruct (bool_decide (temporary ∈ fs w1)) eqn:Htmp; simpl.
    + apply bool_decide_eq_true_1 in Htmp.
      destruct (runs_registry w1 !! temporary) as [final|] eqn:Hreg; simpl.
      * destruct (bool_decide (final ∈ fs w1)) eqn:Hfinal; simpl.
        -- rewrite (bool_decide_eq_true_2 _ Htmp). simpl.
           intros [= <- <-]. simpl.
           repeat split; try done; [right; by eexists| |by left].
           right. exists temporary. done.
        -- apply bool_decide_eq_false_1 in Hfinal.
           destruct (rename_fails temporary final w1) as [e|]; simpl.
           { intros [= <- <-]. repeat split; try done; by left. }
           rewrite bool_decide_eq_true_2 by by apply moved_source. simpl.
           intros [= <- <-]. simpl.
           repeat split; try done; [right; by eexists| |].
           ++ right. exists final. split; [done|by apply moved_source].
           ++ right. exists final. repeat split; try done.
              ** intros (p1 & -> & Hp1)%elem_of_map. by exists p1.
              ** intros (p1 & Hp1 & ->). apply elem_of_map. by exists p1.
      * intros [= <- <-]. repeat split; try done; by left.
    + rewrite Htmp. intros [= <- <-]. repeat split; try done; by left.
  - destruct (bool_decide (temporary ∈ fs w1)) eqn:Htmp; simpl.
    + apply bool_decide_eq_true_1 in Htmp. intros [= <- <-]. simpl.
      repeat split; try done; [by left| |by left].
      right. by exists temporary.
    + intros [= <- <-]. repeat split; try done; by left.
Qed.

(** X20: with a run name, when after the run the temporary path exists,
    the final path recorded for it is free, the temporary directory is
    not inside the final path and the system does not refuse the
    renaming, the command ends normally with the directory moved: the temporary path is gone, the final path is on
    disk, every path that was below the temporary path is below the final
    path, the paths outside the temporary directory are still there, and
    the run is tracked at the final path.  The one log line it adds names
    the final path as both ends of the renaming, the temporary path does
    not appear in it. *)
Theorem run_component_from_key_renames
    (key : RegistrationKey) (serialize : bool) (run_name : string)
    (run_args : option (gmap string run_arg))
    (w0 w1 : World) (temporary final : Path) :
  run_and_serialize' key serialize (Some run_name) run_args w0
  = (w1, Ok temporary) ->
  temporary ∈ fs w1 ->
  runs_registry w1 !! temporary = Some final ->
  final ∉ fs w1 ->
  strip_prefix (final +:+ "/") temporary = None ->
  rename_fails temporary final w1 = None ->
  exists w2,
    run_component_from_key' key serialize (Some run_name) run_args w0
    = (w2, Ok tt)
    /\ (temporary ∉ fs w2)
    /\ final ∈ fs w2
    /\ (forall rest, joinpath temporary rest ∈ fs w1 ->
                     joinpath final rest ∈ fs w2)
    /\ (forall p, p ∈ fs w1 -> p ≠ temporary ->
                  strip_prefix (temporary +:+ "/") p = None -> p ∈ fs w2)
    /\ log w2 = log w1 ++ [InfoRenaming final final]
    /\ run_tracker w2 = run_tracker w1 ++ [(key, final)].
Proof.
  intros Hrun Htmp Hreg Hfinal Houtside Hdone.
  eexists. split.
  - unfold run_component_from_key. rewrite (bind_ok _ _ _ _ _ Hrun).
    unfold finalize_run, bind, path_exists, lookup_runs_registry, logger,
      rename, track_run, ret. simpl.
    rewrite (bool_decide_eq_true_2 _ Htmp). simpl. rewrite Hreg.
    rewrite (bool_decide_eq_false_2 _ Hfinal). simpl. rewrite Hdone. simpl.
    rewrite bool_decide_eq_true_2 by by apply moved_source. reflexivity.
  - simpl. repeat split; try done.
    + intros (p1 & Hmoved & Hp1)%elem_of_map. unfold moved in Hmoved.
      destruct (decide (p1 = temporary)) as [->|Hne]; [by subst|].
      destruct (strip_prefix (temporary +:+ "/") p1) as [rest|] eqn:Hrest;
        [|by subst].
      rewrite Hmoved in Houtside. unfold joinpath in Houtside.
      by rewrite <- string_app_assoc, strip_prefix_app in Houtside.
    + by apply moved_source.
    + intros rest Hrest. apply elem_of_map. exists (joinpath temporary rest).
      split; [|done]. by rewrite moved_below.
    + intros p Hp Hne Hout. apply elem_of_map. exists p. split; [|done].
      unfold moved. rewrite decide_False by done. by rewrite Hout.
Qed.

(** X21: without a run name the table of final paths is never read, so
    the command ends normally even when the table has no entry for the
    temporary path; when that path exists after the run, the run is
    tracked there, nothing is renamed and nothing more is logged. *)
Theorem run_component_from_key_no_run_name
    (key : RegistrationKey) (serialize : bool)
    (run_args : option (gmap string run_arg))
    (w0 w1 : World) (temporary : Path) :
  run_and_serialize' key serialize None run_args w0 = (w1, Ok temporary) ->
  temporary ∈ fs w1 ->
  exists w2,
    run_component_from_key' key serialize None run_args w0 = (w2, Ok tt)
    /\ fs w2 = fs w1
    /\ log w2 = log w1
    /\ run_tracker w2 = run_tracker w1 ++ [(key, temporary)].
Proof.
  intros Hrun Htmp. eexists. split.
  - unfold run_component_from_key. rewrite (bind_ok _ _ _ _ _ Hrun).
    unfold finalize_run, bind, path_exists, track_run, ret. simpl.
    rewrite (bool_decide_eq_true_2 _ Htmp). reflexivity.
  - simpl. done.
Qed.

(** X22: when the temporary path is not on disk after the run (the
    manager did not create it and the component wrote nothing there), the
    command ends normally and does nothing more, with or without a run
    name: the table of final paths is not read and the run is not
    tracked. *)
Theorem run_component_from_key_nothing_on_disk
    (key : RegistrationKey) (serialize : bool) (run_name : option string)
    (run_args : option (gmap string run_arg))
    (w0 w1 : World) (temporary : Path) :
  run_and_serialize' key serialize run_name run_args w0 = (w1, Ok temporary) ->
  temporary ∉ fs w1 ->
  run_component_from_key' key serialize run_name run_args w0 = (w1, Ok tt).
Proof.
  intros Hrun Htmp.
  unfold run_component_from_key. rewrite (bind_ok _ _ _ _ _ Hrun).
  unfold finalize_run, bind, path_exists, ret. simpl.
  rewrite (bool_decide_eq_false_2 _ Htmp), andb_false_r. simpl.
  by rewrite (bool_decide_eq_false_2 _ Htmp).
Qed.

(** X23: an exception raised by the component's [run] leaves the
    command as it is: the component is not saved, nothing is renamed or
    tracked, and the state is the one [run] left, with the temporary
    path still registered. *)
Theorem run_component_from_key_run_raises
    (key : RegistrationKey) (serialize : bool) (run_name : option string)
    (run_args : option (gmap string run_arg))
    (w0 w1 w2 w3 w4 : World) (component : Component) (temporary : Path)
    (e : exn) :
  build_component_from_key key (logger (InfoRetrieving key) w0).1
  = (w1, Ok component) ->
  retrieve_file_manager w1 = (w2, Ok tt) ->
  register_temporary_run_name run_name serialize w2 = (w3, Ok temporary) ->
  (forall args,
     comp_run component args
       (update_logger (joinpath temporary logging_filename) w3).1
     = (w4, Raise e)) ->
  run_component_from_key' key serialize run_name run_args w0 = (w4, Raise e).
Proof.
  intros Hbuild Hfm Hreg Hraise.
  unfold run_component_from_key, run_and_serialize.
  unfold bind at 1. unfold bind at 1. unfold bind at 1. simpl in *.
  unfold bind at 1. rewrite Hbuild.
  unfold bind at 1. rewrite Hfm.
  unfold bind at 1. rewrite Hreg.
  unfold bind at 1. simpl.
  unfold bind at 1. by rewrite Hraise.
Qed.

End RunComponentProperties.

Section MultipleInferenceProperties.
Context {W : Type}.
Variable routine_inference :
  option Path -> option string -> option RegistrationKey -> bool -> M W unit.


End MultipleInferenceProperties.

(** The manager of the concrete run above hands out a temporary path
    that is not yet on disk when [create_path] is off. *)
Definition demo_before_run : World (U := unit) :=
  {| fs := {["runs/other"]}; runs_registry := ∅; run_tracker := [];
     logging_path := None; log := []; ambient := tt |}.

Definition demo_after_unnamed_run : World (U := unit) :=
  {| fs := {["runs/other"]} ∪ {["runs/temp_0"]};
     runs_registry := ∅;
     run_tracker := [];
     logging_path := Some "runs/temp_0/log.txt";
     log := [InfoRetrieving demo_key; InfoSerializing "runs/temp_0"];
     ambient := tt |}.

Definition demo_after_dry_run : World (U := unit) :=
  {| fs := {["runs/other"]};
     runs_registry := {["runs/temp_0" := "runs/best"]};
     run_tracker := [];
     logging_path := Some "runs/temp_0/log.txt";
     log := [InfoRetrieving demo_key];
     ambient := tt |}.

Definition failing_component : Component (U := unit) :=
  {| accepts_serialization_path := false;
     comp_run := fun _ => raise (UserError "out of memory");
     comp_save := fun _ => ret tt |}.

(** A component whose [save] writes the file [model.bin] into the
    directory it is given, the state after its run and save with the run
    name [best], and the state at the end of the command. *)
Definition saving_component : Component (U := unit) :=
  {| accepts_serialization_path := true;
     comp_run := fun _ => ret tt;
     comp_save := fun path w =>
       ({| fs := fs w ∪ {[joinpath path "model.bin"]};
           runs_registry := runs_registry w; run_tracker := run_tracker w;
           logging_path := logging_path w; log := log w;
           ambient := ambient w |}, Ok tt) |}.

Definition demo_after_saving_run : World (U := unit) :=
  {| fs := {["runs/other"]} ∪ {["runs/temp_0"]} ∪ {["runs/temp_0/model.bin"]};
     runs_registry := {["runs/temp_0" := "runs/best"]};
     run_tracker := [];
     logging_path := Some "runs/temp_0/log.txt";
     log := [InfoRetrieving demo_key; InfoSerializing "runs/temp_0"];
     ambient := tt |}.

Definition demo_final : World (U := unit) :=
  {| fs := {["runs/other"]} ∪ {["runs/best"]} ∪ {["runs/best/model.bin"]};
     runs_registry := {["runs/temp_0" := "runs/best"]};
     run_tracker := [(demo_key, "runs/best")];
     logging_path := Some "runs/temp_0/log.txt";
     log := [InfoRetrieving demo_key; InfoSerializing "runs/temp_0";
             InfoRenaming "runs/best" "runs/best"];
     ambient := tt |}.

Example run_component_from_key_moves_the_directory :
  run_component_from_key (fun _ => ret saving_component) (ret tt) demo_register
    "log.txt" (fun _ _ _ => None) demo_key true (Some "best") None demo_before_run
  = (demo_final, Ok tt).
Proof. vm_compute. reflexivity. Qed.

Lemma run_component_from_key_after_run_witness :
  runs_registry demo_final = runs_registry demo_after_saving_run
  /\ logging_path demo_final = logging_path demo_after_saving_run
  /\ ambient demo_final = ambient demo_after_saving_run
  /\ (log demo_final = log demo_after_saving_run
      \/ exists e, log demo_final = log demo_after_saving_run ++ [e])
  /\ (run_tracker demo_final = run_tracker demo_after_saving_run
      \/ exists p,
           run_tracker demo_final
           = run_tracker demo_after_saving_run ++ [(demo_key, p)]
           /\ p ∈ fs demo_final)
  /\ (fs demo_final = fs demo_after_saving_run
      \/ exists final,
           is_Some (Some "best") /\ "runs/temp_0" ∈ fs demo_after_saving_run
           /\ runs_registry demo_after_saving_run !! "runs/temp_0" = Some final
           /\ (final ∉ fs demo_after_saving_run)
           /\ forall p, p ∈ fs demo_final
                <-> exists p1, p1 ∈ fs demo_after_saving_run
                               /\ p = moved "runs/temp_0" final p1).
Proof.
  apply (run_component_from_key_after_run
           (fun _ => ret saving_component) (ret tt) demo_register "log.txt" (fun _ _ _ => None)
           demo_key true (Some "best") None demo_before_run
           demo_after_saving_run demo_final "runs/temp_0" (Ok tt)).
  - vm_compute. reflexivity.
  - vm_compute. reflexivity.
Defined.

Lemma run_component_from_key_renames_witness :
  exists w2,
    run_component_from_key (fun _ => ret saving_component) (ret tt) demo_register
      "log.txt" (fun _ _ _ => None) demo_key true (Some "best") None demo_before_run
    = (w2, Ok tt)
    /\ ("runs/temp_0" ∉ fs w2)
    /\ "runs/best" ∈ fs w2
    /\ (forall rest, joinpath "runs/temp_0" rest ∈ fs demo_after_saving_run ->
                     joinpath "runs/best" rest ∈ fs w2)
    /\ (forall p, p ∈ fs demo_after_saving_run -> p ≠ "runs/temp_0" ->
                  strip_prefix ("runs/temp_0" +:+ "/") p = None -> p ∈ fs w2)
    /\ log w2 = log demo_after_saving_run ++ [InfoRenaming "runs/best" "runs/best"]
    /\ run_tracker w2
       = run_tracker demo_after_saving_run ++ [(demo_key, "runs/best")].
Proof.
  apply (run_component_from_key_renames
           (fun _ => ret saving_component) (ret tt) demo_register "log.txt" (fun _ _ _ => None)
           demo_key true "best" None demo_before_run demo_after_saving_run
           "runs/temp_0" "runs/best").
  - vm_compute. reflexivity.
  - refine (bool_decide_unpack _ _). vm_compute. exact I.
  - vm_compute. reflexivity.
  - refine (bool_decide_unpack _ _). vm_compute. exact I.
  - vm_compute. reflexivity.
  - reflexivity.
Defined.

Lemma run_component_from_key_no_run_name_witness :
  exists w2,
    run_component_from_key (fun _ => ret demo_component) (ret tt) demo_register
      "log.txt" (fun _ _ _ => None) demo_key true None None demo_before_run
    = (w2, Ok tt)
    /\ fs w2 = fs demo_after_unnamed_run
    /\ log w2 = log demo_after_unnamed_run
    /\ run_tracker w2 = run_tracker demo_after_unnamed_run ++ [(demo_key, "runs/temp_0")].
Proof.
  apply (run_component_from_key_no_run_name
           (fun _ => ret demo_component) (ret tt) demo_register "log.txt" (fun _ _ _ => None)
           demo_key true None demo_before_run demo_after_unnamed_run
           "runs/temp_0").
  - vm_compute. reflexivity.
  - refine (bool_decide_unpack _ _). vm_compute. exact I.
Defined.

Lemma run_component_from_key_nothing_on_disk_witness :
  run_component_from_key (fun _ => ret demo_component) (ret tt) demo_register
    "log.txt" (fun _ _ _ => None) demo_key false (Some "best") None demo_before_run
  = (demo_after_dry_run, Ok tt).
Proof.
  apply (run_component_from_key_nothing_on_disk
           (fun _ => ret demo_component) (ret tt) demo_register "log.txt" (fun _ _ _ => None)
           demo_key false (Some "best") None demo_before_run demo_after_dry_run
           "runs/temp_0").
  - vm_compute. reflexivity.
  - refine (bool_decide_unpack _ _). vm_compute. exact I.
Defined.

Lemma run_component_from_key_run_raises_witness :
  run_component_from_key (fun _ => ret failing_component) (ret tt) demo_register
    "log.txt" (fun _ _ _ => None) demo_key true (Some "best") None demo_before_run
  = ((update_logger "runs/temp_0/log.txt"
        (demo_register (Some "best") true
           (logger (InfoRetrieving demo_key) demo_before_run).1).1).1,
     Raise (UserError "out of memory")).
Proof.
  apply (run_component_from_key_run_raises
           (fun _ => ret failing_component) (ret tt) demo_register "log.txt" (fun _ _ _ => None)
           demo_key true (Some "best") None demo_before_run
           (logger (InfoRetrieving demo_key) demo_before_run).1
           (logger (InfoRetrieving demo_key) demo_before_run).1
           (demo_register (Some "best") true
              (logger (InfoRetrieving demo_key) demo_before_run).1).1
           _ failing_component "runs/temp_0").
  - reflexivity.
  - reflexivity.
  - reflexivity.
  - intros args. reflexivity.
Defined.



End Commands.

(** * The training and inference commands *)

Module Routines.
Import Configuration Commands.

(** The [routine_path] argument, [Union[AnyStr, Path]]: a string or a
    path object. *)
Inductive path_like :=
| AsStr (s : string)
| AsPath (p : Path).

Section Routines.
(** The program's state and the built helper components. *)
Context {St Helper : Type}.

(** A value of the arguments handed to the routine's [run]. *)
Inductive routine_arg :=
| AHelper (helper : Helper)
| ABool (b : bool)
| AValue (v : value).

(** The registry, the manager and the files, as the commands call them:
    [Registry.build_component_from_key(config_registration_key=)],
    [Registry.build_component(name=, tags=, namespace=)],
    [Registry.retrieve_built_component(name=, namespace=, is_default=)],
    [run_component_from_key(config_registration_key=, serialize=, run_name=, run_args=)],
    [FileManager.retrieve_built_component(name='file_manager', namespace='generic', is_default=True)],
    [file_manager.run(filepath=file_manager.routine_directory)],
    [path.is_file()], and [load_json(path)['routine_registration_key']]. *)
Variable build_component_from_key : RegistrationKey -> M St Helper.
Variable build_component : string -> gset string -> string -> M St Helper.
Variable retrieve_built_component : string -> string -> bool -> M St Helper.
Variable run_component_from_key :
  RegistrationKey -> bool -> option string ->
  option (gmap string routine_arg) -> M St unit.
Variable retrieve_file_manager : M St unit.
Variable routine_directory : M St Path.
Variable is_file : Path -> M St bool.
Variable load_routine_registration_key : Path -> M St RegistrationKey.

(** The dictionary [{**routine_args, **run_args}] is [run_args ∪
    routine_args]: on a key of both, the value of [run_args]. *)
Definition routine_train_from_key (routine_registration_key : RegistrationKey)
    (helper_registration_key : option RegistrationKey) (serialize : bool)
    (run_name : option string) (run_args : option (gmap string routine_arg))
    : M St unit :=
  do helper <-
    match helper_registration_key with
    | Some key => build_component_from_key key
    | None => build_component "helper" {["default"]} "generic"
    end;
  let routine_args : gmap string routine_arg :=
    {["helper" := AHelper helper; "is_training" := ABool true]} in
  let run_args :=
    match run_args with
    | Some run_args => run_args ∪ routine_args
    | None => routine_args
    end in
  run_component_from_key routine_registration_key serialize run_name
    (Some run_args).

Definition routine_multiple_train
    (routine_registration_keys : list RegistrationKey)
    (helper_registration_key : option RegistrationKey) (serialize : bool)
    : M St unit :=
  for_each routine_registration_keys (fun routine_registration_key =>
    routine_train_from_key routine_registration_key helper_registration_key
      serialize None None).

(** [routine_inference].  A path given as a string has no [joinpath]:
    the attribute access raises AttributeError. *)
Definition routine_inference (routine_path : option path_like)
    (routine_name : option string)
    (helper_registration_key : option RegistrationKey) (serialize : bool)
    : M St unit :=
  match routine_path, routine_name with
  | None, None => raise AttributeError
  | _, _ =>
      do _ <- retrieve_file_manager;
      do routine_path <-
        match routine_path with
        | Some routine_path => ret routine_path
        | None =>
            do directory <- routine_directory;
            match routine_name with
            | Some routine_name => ret (AsPath (joinpath directory routine_name))
            | None => raise TypeError
            end
        end;
      match routine_path with
      | AsStr _ => raise AttributeError
      | AsPath routine_path =>
          let metadata_path := joinpath routine_path "command_metadata.json" in
          do found <- is_file metadata_path;
          if negb found then raise FileNotFoundError
          else
            do routine_registration_key <-
              load_routine_registration_key metadata_path;
            do helper <-
              match helper_registration_key with
              | Some key => build_component_from_key key
              | None => retrieve_built_component "helper" "generic" true
              end;
            run_component_from_key routine_registration_key serialize
              routine_name
              (Some {["helper" := AHelper helper; "is_training" := ABool false]})
      end
  end.


(** X26: [routine_multiple_train] trains the routines in the order of
    the list and stops at the first training that raises: the exception
    is the command's, and the routines after it are not trained. *)
Theorem routine_multiple_train_stops_at_first_failure
    (trained rest : list RegistrationKey) (failing : RegistrationKey)
    (helper_registration_key : option RegistrationKey) (serialize : bool)
    (s s1 s2 : St) (e : exn) :
  routine_multiple_train trained helper_registration_key serialize s
  = (s1, Ok tt) ->
  routine_train_from_key failing helper_registration_key serialize None None s1
  = (s2, Raise e) ->
  routine_multiple_train (trained ++ failing :: rest) helper_registration_key
    serialize s
  = (s2, Raise e).
Proof.
  intros Htrained Hfailing. unfold routine_multiple_train in *.
  by apply (for_each_stops _ _ _ _ _ s1).
Qed.


(** X29: a routine path given as a string, which the signature of
    [routine_inference] admits, makes it raise AttributeError at
    [routine_path.joinpath], once the manager has been retrieved: the
    metadata file is not looked for and no component is run, with or
    without a routine name. *)
Theorem routine_inference_string_path
    (text : string) (routine_name : option string)
    (helper_registration_key : option RegistrationKey) (serialize : bool)
    (s s1 : St) :
  retrieve_file_manager s = (s1, Ok tt) ->
  routine_inference (Some (AsStr text)) routine_name helper_registration_key
    serialize s
  = (s1, Raise AttributeError).
Proof.
  intros Hfm. unfold routine_inference.
  by rewrite (bind_ok _ _ _ _ _ Hfm), bind_ret_l.
Qed.

End Routines.

(** A small program state: the arguments of the runs so far, and the
    files on disk. *)
Record demo_state := {
  runs : list (RegistrationKey * gmap string (routine_arg (Helper := string)));
  files : gset Path
}.

Definition demo_run (key : RegistrationKey) (serialize : bool)
    (run_name : option string)
    (run_args : option (gmap string (routine_arg (Helper := string))))
    : M demo_state unit :=
  fun s =>
    if decide (rk_name key = "broken") then (s, Raise RuntimeError)
    else ({| runs := runs s ++ [(key, default ∅ run_args)]; files := files s |},
          Ok tt).

Definition demo_routine (name : string) : RegistrationKey :=
  {| rk_name := name; rk_tags := {["routine"]}; rk_namespace := "generic" |}.

Definition demo_start : demo_state := {| runs := []; files := ∅ |}.



Lemma routine_multiple_train_stops_at_first_failure_witness :
  routine_multiple_train (fun _ => ret "custom") (fun _ _ _ => ret "default")
    demo_run ([demo_routine "a"] ++ demo_routine "broken" :: [demo_routine "c"])
    None false demo_start
  = ({| runs := [(demo_routine "a",
                  {["helper" := AHelper "default"; "is_training" := ABool true]})];
        files := ∅ |},
     Raise RuntimeError).
Proof.
  apply (routine_multiple_train_stops_at_first_failure
           (fun _ => ret "custom") (fun _ _ _ => ret "default") demo_run
           [demo_routine "a"] [demo_routine "c"] (demo_routine "broken")
           None false demo_start
           {| runs := [(demo_routine "a",
                        {["helper" := AHelper "default";
                          "is_training" := ABool true]})];
              files := ∅ |}).
  - reflexivity.
  - reflexivity.
Defined.


Lemma routine_inference_string_path_witness :
  routine_inference (fun _ => ret "custom") (fun _ _ _ => ret "default")
    demo_run (ret tt) (ret "routines")
    (fun path s => (s, Ok true))
    (fun _ => ret (demo_routine "a"))
    (Some (AsStr "runs/a")) None None false demo_start
  = (demo_start, Raise AttributeError).
Proof.
  apply (routine_inference_string_path
           (fun _ => ret "custom") (fun _ _ _ => ret "default")
           demo_run (ret tt) (ret "routines")
           (fun path s => (s, Ok true))
           (fun _ => ret (demo_routine "a"))
           "runs/a" None None false demo_start demo_start).
  reflexivity.
Defined.

End Routines.
